(** * AutoAWQ: the block streaming pipeline of [awq/models/base.py]

    A shallow embedding of [BaseAWQForCausalLM]: [quantize], [_awq_search],
    [_awq_quant], [save_quantized], [from_quantized],
    [_load_quantized_modules] and [_scale_activations].

    The Python object graph is a [State] record threaded through a state and
    exception monad [M]: a raised exception keeps every mutation performed
    before it, as in Python.  Calls that leave [base.py] (the model adapter,
    the search and packing routines, the checkpoint library) are the fields
    of the [Collaborators] class; each call that matters for ordering is
    logged in [st_trace]. *)

From Stdlib Require Import QArith Ascii.
From stdpp Require Import base option list strings gmap pretty.

Local Open Scope nat_scope.

(** ** Python values, exceptions *)

(** The values a quant config holds ([json.loads] of [quant_config.json], or
    the dict literal passed to [quantize]). *)
Inductive PyVal :=
| PyNone
| PyBool (b : bool)
| PyInt (z : Z)
| PyStr (s : string).

(** Python truthiness, as used by [assert quant_config["zero_point"]]. *)
Definition truthy (v : PyVal) : bool :=
  match v with
  | PyNone => false
  | PyBool b => b
  | PyInt z => negb (z =? 0)%Z
  | PyStr s => negb (String.eqb s "")
  end.

(** [v == 'GEMM']: a string compares equal to the same string only. *)
Definition py_eq_str (v : PyVal) (s : string) : bool :=
  match v with
  | PyStr t => String.eqb t s
  | _ => false
  end.

Inductive Exn :=
| AssertionError (msg : string)
| KeyError (key : string)
| IndexError (index : Z)
| UnboundLocalError (var : string)
| FileNotFoundError (path : string)
| NotImplementedError (msg : string)
| StopIteration.

Abbreviation QuantConfig := (gmap string PyVal).

(** ** Tensors, sublayers, blocks *)

Inductive Device :=
| Cpu
| Cuda (ordinal : nat)
| MetaDevice.

Inductive DType := Float16 | BFloat16 | Float32.

(** A tensor is its metadata and its elements; an element is the rational a
    finite float denotes.  No arithmetic is done on elements here: every
    numeric routine is a collaborator. *)
Record Tensor := mkTensor {
  t_shape : list nat;
  t_dtype : DType;
  t_device : Device;
  t_data : list Q
}.

(** The meta device holds a tensor's shape and dtype and no data. *)
Definition is_meta (d : Device) : bool :=
  match d with
  | MetaDevice => true
  | _ => false
  end.

(** [t.to(d)], [t.cuda()], [t.cpu()] on a tensor that holds its data: same
    elements, new placement; on the meta device the elements are gone. *)
Definition tensor_to (d : Device) (t : Tensor) : Tensor :=
  {| t_shape := t_shape t; t_dtype := t_dtype t; t_device := d;
     t_data := if is_meta d then [] else t_data t |}.

(** [torch.ones(shape, dtype=.., device=..)]: on a device that holds data,
    one element 1 per position. *)
Definition torch_ones (shape : list nat) (dt : DType) (d : Device) : Tensor :=
  {| t_shape := shape; t_dtype := dt; t_device := d;
     t_data := if is_meta d then [] else replicate (foldr Nat.mul 1 shape) 1%Q |}.

(** [torch.cat(ts, dim=0)] on tensors that agree on the other dimensions.
    It is only called on the non-empty lists a [defaultdict(list)] holds. *)
Definition torch_cat (ts : list Tensor) : Tensor :=
  match ts with
  | [] => mkTensor [0] Float16 Cpu []
  | t :: _ =>
      {| t_shape := foldr Nat.add 0 ((λ u, hd 0 (t_shape u)) <$> ts)
                      :: tl (t_shape t);
         t_dtype := t_dtype t; t_device := t_device t;
         t_data := concat (t_data <$> ts) |}
  end.

Record LinearData := mkLinear {
  weight : Tensor;
  bias : option Tensor
}.

Inductive WQKind := WQLinear_GEMM | WQLinear_GEMV.

(** The sublayers of a transformer block, by their role in [base.py]. *)
Inductive Module :=
| Linear (l : LinearData)
| WQLinear (kind : WQKind) (w_bit q_group_size : PyVal) (init_only : bool)
    (src : LinearData) (scales zeros : option Tensor) (dev : Device)
| Activation (fn : string)
| ScaledActivation (act : Module) (scales : Tensor)
| Norm (gain : Tensor).

Abbreviation Sublayers := (list (string * Module)).

(** A block: the name the model registers it under ([get_op_name]) and its
    named sublayers in registration order. *)
Record Block := mkBlock {
  blk_name : string;
  blk_mods : Sublayers
}.

Definition linear_to (d : Device) (l : LinearData) : LinearData :=
  {| weight := tensor_to d (weight l); bias := tensor_to d <$> bias l |}.

(** [module.to(d)]: every parameter and buffer moves, in place. *)
Fixpoint module_to (d : Device) (m : Module) : Module :=
  match m with
  | Linear l => Linear (linear_to d l)
  | WQLinear k w g io src s z _ => WQLinear k w g io src s z d
  | Activation fn => Activation fn
  | ScaledActivation a s => ScaledActivation (module_to d a) (tensor_to d s)
  | Norm g => Norm (tensor_to d g)
  end.

Definition block_to (d : Device) (b : Block) : Block :=
  {| blk_name := blk_name b;
     blk_mods := prod_map id (module_to d) <$> blk_mods b |}.

(** [module.parameters()]: own parameters first, then the children's.  A
    [WQLinear] keeps its tensors as buffers and has no parameter. *)
Fixpoint parameters (m : Module) : list Tensor :=
  match m with
  | Linear l => weight l :: option_list (bias l)
  | WQLinear _ _ _ _ _ _ _ _ => []
  | Activation _ => []
  | ScaledActivation a s => s :: parameters a
  | Norm g => [g]
  end.

Definition block_parameters (b : Block) : list Tensor :=
  flat_map (λ nm, parameters nm.2) (blk_mods b).

(** The devices a module occupies: those of its parameters and buffers. *)
Fixpoint module_devices (m : Module) : list Device :=
  match m with
  | WQLinear _ _ _ _ _ _ _ d => [d]
  | ScaledActivation a s => t_device s :: module_devices a
  | _ => t_device <$> parameters m
  end.

Definition block_devices (b : Block) : list Device :=
  flat_map (λ nm, module_devices nm.2) (blk_mods b).

(** A tensor on the meta device cannot be copied to a device that holds
    data; anything can be put on the meta device. *)
Definition movable (d : Device) (devs : list Device) : bool :=
  is_meta d || forallb (λ x, negb (is_meta x)) devs.

Definition meta_copy_message : string :=
  "Cannot copy out of meta tensor; no data!".

(** A block is on the host when nothing of it is left on another device. *)
Definition on_host (b : Block) : Prop :=
  Forall (λ d, d = Cpu) (block_devices b).

Definition is_scaled_activation (m : Module) : bool :=
  match m with
  | ScaledActivation _ _ => true
  | _ => false
  end.

(** Modelled from the spec: [get_named_linears] of [awq.utils.module] is not
    part of [base.py]; section 6 gives it as the mapping from name to
    linear sublayer of a block. *)
Definition get_named_linears (b : Block) : list (string * LinearData) :=
  omap (λ nm, match nm.2 with
              | Linear l => Some (nm.1, l)
              | _ => None
              end) (blk_mods b).

(** Modelled from the spec: [set_op_by_name] of [awq.utils.module] is not
    part of [base.py]; section 9 gives the replacement of a sublayer by name
    as an explicit map update.  A name the block does not have yet is
    added, as [setattr] does. *)
Fixpoint set_op_by_name (name : string) (new : Module) (mods : Sublayers)
  : Sublayers :=
  match mods with
  | [] => [(name, new)]
  | (n, m) :: rest =>
      if String.eqb n name then (n, new) :: rest
      else (n, m) :: set_op_by_name name new rest
  end.

(** The sublayer a block has under a name. *)
Fixpoint get_op_by_name (name : string) (mods : Sublayers) : option Module :=
  match mods with
  | [] => None
  | (n, m) :: rest =>
      if String.eqb n name then Some m else get_op_by_name name rest
  end.

(** A linear sublayer taken out of [named_linears] is an alias of the object
    in the block: mutating it ([module.cuda()], [module.weight.data = ..])
    is seen through the block, also when an adapter has wrapped it. *)
Fixpoint write_linear (l : LinearData) (m : Module) : Module :=
  match m with
  | Linear _ => Linear l
  | ScaledActivation a s => ScaledActivation (write_linear l a) s
  | _ => m
  end.

Fixpoint store_linear (name : string) (l : LinearData) (mods : Sublayers)
  : Sublayers :=
  match mods with
  | [] => []
  | (n, m) :: rest =>
      if String.eqb n name then (n, write_linear l m) :: rest
      else (n, m) :: store_linear name l rest
  end.

(** ** Search results and files *)

Record ScaleRecord := mkScale {
  prev_op_name : string;
  linear_names : list string;
  scale_values : Tensor
}.

Record ClipRecord := mkClip {
  linear_name : string;
  max_val : Tensor
}.

(** [awq_results = {"scale": [], "clip": []}]. *)
Record SearchResult := mkResult {
  sr_scale : list ScaleRecord;
  sr_clip : list ClipRecord
}.

(** Modelled from the spec: [append_str_prefix] of [awq.utils.module] is not
    part of [base.py]; its call sites say "append prefix to make names
    global" and section 3 calls the records globally named
    (block-qualified): every name in a record gets the prefix in front. *)
Definition prefix_scale (prefix : string) (r : ScaleRecord) : ScaleRecord :=
  {| prev_op_name := prefix +:+ prev_op_name r;
     linear_names := (λ n, prefix +:+ n) <$> linear_names r;
     scale_values := scale_values r |}.

Definition prefix_clip (prefix : string) (r : ClipRecord) : ClipRecord :=
  {| linear_name := prefix +:+ linear_name r; max_val := max_val r |}.

Abbreviation StateDict := (list (string * Tensor)).

Inductive FileData :=
| FModelFiles
| FSearchResult (r : SearchResult)
| FTorchWeights (sd : StateDict)
| FSafetensors (sd : StateDict)
| FShardIndex (index : list (string * string))
| FQuantConfig (cfg : QuantConfig).

(** What [get_act_for_scaling] answers: [dict(is_scalable=False)], or the
    activation to wrap with its name and the shape of its scale. *)
Inductive ScaleDict :=
| NotScalable
| Scalable (scale_name : string) (scale_layer : Module)
    (scale_shape : list nat).

Abbreviation Kwargs := (list (string * PyVal)).
Abbreviation InputFeat := (gmap string Tensor).

(** ** Collaborators

    Everything [base.py] calls and does not define.  The numeric routines
    act on a block's sublayers; the pipeline alone moves blocks. *)
Class Collaborators := {
  (** the model run on the samples up to block 0: what the [Catcher] hack
      records, [(inps[0], layer_kwargs)] *)
  run_prefix : Tensor → Tensor * Kwargs;
  (** [layer(inps, **layer_kwargs)[0]], with the input of each call to a
      sublayer, in call order *)
  block_forward : Sublayers → Tensor → Kwargs → Tensor * list (string * Tensor);
  auto_scale_block :
    Sublayers → Kwargs → QuantConfig → InputFeat → list ScaleRecord;
  apply_scale :
    Sublayers → list ScaleRecord → InputFeat → Sublayers * InputFeat;
  auto_clip_block : Sublayers → QuantConfig → InputFeat → list ClipRecord;
  apply_clip : Sublayers → list ClipRecord → Sublayers;
  (** the model adapter *)
  get_act_for_scaling : Block → ScaleDict;
  (** [pseudo_quantize_tensor(w, get_scale_zp=True, w_bit, q_group_size)] *)
  pseudo_quantize_tensor : Tensor → PyVal → PyVal → Tensor * Tensor * Tensor;
  (** [t.t().contiguous()] *)
  t_contiguous : Tensor → Tensor;
  (** [self.model.state_dict()] *)
  state_dict : list Block → StateDict;
  (** [shard_checkpoint(state_dict, max_shard_size, weights_name)] *)
  shard_checkpoint :
    StateDict → string → string →
    list (string * StateDict) * option (list (string * string));
  (** [load_checkpoint_in_model] then [simple_dispatch_model] *)
  load_checkpoint : list Block → list Block
}.

(** ** Program state *)

Inductive Event :=
| EvTo (i : nat) (d : Device)
| EvMoveEmbed (d : Device)
| EvEmptyCache
| EvRegisterHook (h i : nat) (name : string)
| EvForward (i : nat) (inp out : Tensor)
| EvRemoveHook (h : nat)
| EvCat (i : nat) (feat : InputFeat)
| EvAutoScale (i : nat) (mods : Sublayers) (feat : InputFeat)
| EvApplyScale (i : nat) (scales : list ScaleRecord)
| EvAutoClip (i : nat) (mods : Sublayers) (feat : InputFeat)
| EvApplyClip (i : nat) (clips : list ClipRecord)
| EvPseudoQuantize (i : nat) (name : string)
| EvFromLinear (i : nat) (name : string) (kind : WQKind)
| EvSetOp (i : nat) (name : string)
| EvSetItem (key : string) (v : PyVal)
| EvWrite (path : string) (data : FileData)
| EvRemove (path : string).

Record State := mkState {
  (** [self.get_model_layers(self.model)]: the model's own block list *)
  st_layers : list Block;
  (** where [move_embed] last put the embeddings *)
  st_embed : Device;
  (** the quant config dict; [self.quant_config] and the [quant_config]
      argument are two names of this one object *)
  st_quant_config : QuantConfig;
  st_search_result : option SearchResult;
  st_is_quantized : bool;
  (** forward hooks in place, by handle: (block index, sublayer name) *)
  st_hooks : gmap nat (nat * string);
  st_next_handle : nat;
  st_fs : gmap string FileData;
  st_trace : list Event
}.

Definition with_layers (f : list Block → list Block) (st : State) : State :=
  mkState (f (st_layers st)) (st_embed st) (st_quant_config st)
    (st_search_result st) (st_is_quantized st) (st_hooks st)
    (st_next_handle st) (st_fs st) (st_trace st).

Definition with_embed (d : Device) (st : State) : State :=
  mkState (st_layers st) d (st_quant_config st)
    (st_search_result st) (st_is_quantized st) (st_hooks st)
    (st_next_handle st) (st_fs st) (st_trace st).

Definition with_quant_config (f : QuantConfig → QuantConfig) (st : State)
  : State :=
  mkState (st_layers st) (st_embed st) (f (st_quant_config st))
    (st_search_result st) (st_is_quantized st) (st_hooks st)
    (st_next_handle st) (st_fs st) (st_trace st).

Definition with_search_result (r : option SearchResult) (st : State) : State :=
  mkState (st_layers st) (st_embed st) (st_quant_config st)
    r (st_is_quantized st) (st_hooks st)
    (st_next_handle st) (st_fs st) (st_trace st).

Definition with_is_quantized (b : bool) (st : State) : State :=
  mkState (st_layers st) (st_embed st) (st_quant_config st)
    (st_search_result st) b (st_hooks st)
    (st_next_handle st) (st_fs st) (st_trace st).

Definition with_hooks (f : gmap nat (nat * string) → gmap nat (nat * string))
    (next : nat) (st : State) : State :=
  mkState (st_layers st) (st_embed st) (st_quant_config st)
    (st_search_result st) (st_is_quantized st) (f (st_hooks st))
    next (st_fs st) (st_trace st).

Definition with_fs (f : gmap string FileData → gmap string FileData)
    (st : State) : State :=
  mkState (st_layers st) (st_embed st) (st_quant_config st)
    (st_search_result st) (st_is_quantized st) (st_hooks st)
    (st_next_handle st) (f (st_fs st)) (st_trace st).

Definition with_trace (f : list Event → list Event) (st : State) : State :=
  mkState (st_layers st) (st_embed st) (st_quant_config st)
    (st_search_result st) (st_is_quantized st) (st_hooks st)
    (st_next_handle st) (st_fs st) (f (st_trace st)).

(** ** The monad *)

Definition M (A : Type) : Type := State → (Exn + A) * State.

Definition ret {A} (a : A) : M A := λ st, (inr a, st).

Definition bind {A B} (m : M A) (k : A → M B) : M B :=
  λ st, match m st with
        | (inl e, st') => (inl e, st')
        | (inr a, st') => k a st'
        end.

Definition raise {A} (e : Exn) : M A := λ st, (inl e, st).
Definition gets {A} (f : State → A) : M A := λ st, (inr (f st), st).
Definition modify (f : State → State) : M unit := λ st, (inr tt, f st).

Declare Scope py_scope.
Delimit Scope py_scope with py.
Notation "'let!' x := m 'in' k" := (bind m (fun x => k))
  (at level 10, x name, m at level 100, k at level 200) : py_scope.
Notation "m >> k" := (bind m (fun _ => k))
  (at level 90, right associativity) : py_scope.
Local Open Scope py_scope.

(** [for x in xs: acc = body(x, acc)]: the loop carries the locals the body
    rebinds. *)
Fixpoint for_each {A S} (xs : list A) (body : A → S → M S) (s : S) : M S :=
  match xs with
  | [] => ret s
  | x :: xs' => let! s' := body x s in for_each xs' body s'
  end.

(** [for i in range(a, b)] with a body that rebinds nothing. *)
Definition for_range (a b : nat) (body : nat → M unit) : M unit :=
  for_each (seq a (b - a)) (λ i _, body i) tt.

Definition emit (e : Event) : M unit := modify (with_trace (λ t, t ++ [e])).

(** [layers[i]]: a [ModuleList] raises [IndexError] out of range. *)
Definition get_layer (i : nat) : M Block :=
  λ st, match st_layers st !! i with
        | Some b => (inr b, st)
        | None => (inl (IndexError (Z.of_nat i)), st)
        end.

(** [layers[i] = b]. *)
Definition set_layer (i : nat) (b : Block) : M unit :=
  λ st, if decide (i < length (st_layers st))
        then (inr tt, with_layers (λ ls, <[i := b]> ls) st)
        else (inl (IndexError (Z.of_nat i)), st).

(** [quant_config[k]]. *)
Definition getitem_config (k : string) : M PyVal :=
  λ st, match st_quant_config st !! k with
        | Some v => (inr v, st)
        | None => (inl (KeyError k), st)
        end.

(** [quant_config[k] = v]: the one way the dict is written. *)
Definition setitem_config (k : string) (v : PyVal) : M unit :=
  modify (with_quant_config (λ cfg, <[k := v]> cfg)) >> emit (EvSetItem k v).

(** What [.to(d)] checks before it copies. *)
Definition move_guard (d : Device) (devs : list Device) : M unit :=
  if movable d devs then ret tt
  else raise (NotImplementedError meta_copy_message).

(** [t.to(d)] on a tensor. *)
Definition tensor_move (d : Device) (t : Tensor) : M Tensor :=
  move_guard d [t_device t] >> ret (tensor_to d t).

(** [m.to(d)] on a sublayer held in a local. *)
Definition module_move (d : Device) (m : Module) : M Module :=
  move_guard d (module_devices m) >> ret (module_to d m).

(** [layers[i] = layers[i].to(d)]; also [layer = layers[i]; layer.to(d)],
    since [Module.to] moves the object in place and returns it.  A block
    with a tensor on the meta device raises; the tensors [Module.to] has
    moved before it comes to that one are not tracked. *)
Definition layer_to (i : nat) (d : Device) : M unit :=
  let! layer := get_layer i in
  move_guard d (block_devices layer) >>
  set_layer i (block_to d layer) >> emit (EvTo i d).

(** The sublayers of block [i], updated in place. *)
Definition update_mods (i : nat) (f : Sublayers → Sublayers) : M unit :=
  let! layer := get_layer i in
  set_layer i {| blk_name := blk_name layer; blk_mods := f (blk_mods layer) |}.

Definition move_embed (d : Device) : M unit :=
  modify (with_embed d) >> emit (EvMoveEmbed d).

(** ** Forward hooks *)

(** [module.register_forward_hook(..)]: a fresh handle, never reused. *)
Definition register_forward_hook (i : nat) (name : string) : M nat :=
  let! h := gets st_next_handle in
  modify (with_hooks (λ hs, <[h := (i, name)]> hs) (S h)) >>
  emit (EvRegisterHook h i name) >>
  ret h.

(** [h.remove()]. *)
Definition remove_hook (h : nat) : M unit :=
  let! next := gets st_next_handle in
  modify (with_hooks (λ hs, delete h hs) next) >>
  emit (EvRemoveHook h).

(** How many hooks sit on sublayer [name] of block [i]. *)
Definition hooks_on (hooks : gmap nat (nat * string)) (i : nat)
    (name : string) : nat :=
  length (filter (λ kv, kv.2 = (i, name)) (map_to_list hooks)).

(** [cache_input_hook], run once per hook in place on the called sublayer:
    [x = x[0]; x = x.detach().cpu(); feat_dict[name].append(x)]. *)
Definition cache_input_hook (hooks : gmap nat (nat * string)) (i : nat)
    (feat_dict : gmap string (list Tensor)) (call : string * Tensor)
  : gmap string (list Tensor) :=
  match hooks_on hooks i call.1 with
  | 0 => feat_dict
  | n =>
      <[call.1 := default [] (feat_dict !! call.1)
                    ++ replicate n (tensor_to Cpu call.2)]> feat_dict
  end.

(** ** File system *)

Definition write_file (path : string) (data : FileData) : M unit :=
  modify (with_fs (λ fs, <[path := data]> fs)) >> emit (EvWrite path data).

Definition os_remove (path : string) : M unit :=
  let! fs := gets st_fs in
  match fs !! path with
  | None => raise (FileNotFoundError path)
  | Some _ => modify (with_fs (λ fs, delete path fs)) >> emit (EvRemove path)
  end.

Fixpoint str_last (s : string) : option ascii :=
  match s with
  | EmptyString => None
  | String c EmptyString => Some c
  | String _ s' => str_last s'
  end.

Fixpoint str_drop_last (s : string) : string :=
  match s with
  | EmptyString => EmptyString
  | String _ EmptyString => EmptyString
  | String c s' => String c (str_drop_last s')
  end.

(** [os.path.join(a, b)]. *)
Definition os_path_join (a b : string) : string :=
  match b with
  | String "/"%char _ => b
  | _ =>
      match str_last a with
      | None => b
      | Some "/"%char => a +:+ b
      | Some _ => a +:+ "/" +:+ b
      end
  end.

Section Pipeline.
Context `{Collaborators}.

(** ** [_scale_activations] (lines 459-472) *)

Definition _scale_activations (layer : Block) : Exn + Block :=
  match get_act_for_scaling layer with
  | NotScalable => inr layer
  | Scalable scale_name scale_layer scale_shape =>
      if is_scaled_activation scale_layer then inr layer
      else
        match block_parameters layer with
        | [] => inl StopIteration
        | param :: _ =>
            let scale_like :=
              torch_ones scale_shape (t_dtype param) (t_device param) in
            let scaled_act := ScaledActivation scale_layer scale_like in
            inr {| blk_name := blk_name layer;
                   blk_mods :=
                     set_op_by_name scale_name scaled_act (blk_mods layer) |}
        end
  end.

(** [self._scale_activations(self, layer)] on [layer = layers[i]]. *)
Definition scale_activations_at (i : nat) : M unit :=
  let! layer := get_layer i in
  match _scale_activations layer with
  | inl e => raise e
  | inr layer' => set_layer i layer'
  end.

(** ** [_awq_quant] (lines 68-111) *)

Definition assert_zero_point : M unit :=
  let! zp := getitem_config "zero_point" in
  if truthy zp then ret tt
  else raise (AssertionError "We only support zero_point quantization now.").

(** [next(layer.parameters()).device]. *)
Definition first_parameter_device (i : nat) : M Device :=
  let! layer := get_layer i in
  match block_parameters layer with
  | [] => raise StopIteration
  | param :: _ => ret (t_device param)
  end.

(** The body of [for name, module in named_linears.items()], lines 79-108.
    [q_linear_module] is a local of the whole function: a branch that is
    not taken leaves it as the previous turn left it, unbound at first. *)
Definition quantize_linear (i : nat) (nl : string * LinearData)
    (q_linear_module : option WQKind) : M (option WQKind) :=
  let name := nl.1 in
  move_guard (Cuda 0) (module_devices (Linear nl.2)) >>
  let module := linear_to (Cuda 0) nl.2 in
  update_mods i (store_linear name module) >>
  let! w_bit := getitem_config "w_bit" in
  let! q_group_size := getitem_config "q_group_size" in
  let pq := pseudo_quantize_tensor (weight module) w_bit q_group_size in
  let module := {| weight := pq.1.1; bias := bias module |} in
  update_mods i (store_linear name module) >>
  emit (EvPseudoQuantize i name) >>
  let! version := getitem_config "version" in
  let! sel :=
    (if py_eq_str version "GEMM"
     then ret (t_contiguous pq.1.2, t_contiguous pq.2, Some WQLinear_GEMM)
     else
       let! version := getitem_config "version" in
       if py_eq_str version "GEMV"
       then ret (pq.1.2, pq.2, Some WQLinear_GEMV)
       else ret (pq.1.2, pq.2, q_linear_module)) in
  match sel.2 with
  | None => raise (UnboundLocalError "q_linear_module")
  | Some kind =>
      let! w_bit := getitem_config "w_bit" in
      let! q_group_size := getitem_config "q_group_size" in
      let q_linear :=
        WQLinear kind w_bit q_group_size false module
          (Some sel.1.1) (Some sel.1.2) (t_device (weight module)) in
      emit (EvFromLinear i name kind) >>
      update_mods i (store_linear name (linear_to Cpu module)) >>
      let! d := first_parameter_device i in
      let! q_linear := module_move d q_linear in
      update_mods i (set_op_by_name name q_linear) >>
      emit (EvSetOp i name) >>
      emit EvEmptyCache >>
      ret (Some kind)
  end.

(** The body of [for i in range(len(layers))], lines 74-111. *)
Definition quantize_block (i : nat) (q_linear_module : option WQKind)
  : M (option WQKind) :=
  let! layer := get_layer i in
  let named_linears := get_named_linears layer in
  scale_activations_at i >>
  let! q := for_each named_linears (quantize_linear i) q_linear_module in
  emit EvEmptyCache >>
  ret q.

Definition _awq_quant : M unit :=
  assert_zero_point >>
  let! n := gets (λ st, length (st_layers st)) in
  for_each (seq 0 n) quantize_block None >>
  ret tt.

(** ** [_load_quantized_modules] (lines 424-457) *)

Definition load_linear (version : PyVal) (i : nat) (nl : string * LinearData)
    (q_linear_module : option WQKind) : M (option WQKind) :=
  let name := nl.1 in
  let module := nl.2 in
  let q_linear_module :=
    if py_eq_str version "GEMM" then Some WQLinear_GEMM
    else if py_eq_str version "GEMV" then Some WQLinear_GEMV
    else q_linear_module in
  match q_linear_module with
  | None => raise (UnboundLocalError "q_linear_module")
  | Some kind =>
      let! w_bit := getitem_config "w_bit" in
      let! q_group_size := getitem_config "q_group_size" in
      let q_linear :=
        WQLinear kind w_bit q_group_size true module None None
          (t_device (weight module)) in
      emit (EvFromLinear i name kind) >>
      let! d := first_parameter_device i in
      let! q_linear := module_move d q_linear in
      update_mods i (set_op_by_name name q_linear) >>
      emit (EvSetOp i name) >>
      ret (Some kind)
  end.

Definition load_block (version : PyVal) (i : nat)
    (q_linear_module : option WQKind) : M (option WQKind) :=
  let! layer := get_layer i in
  let named_linears := get_named_linears layer in
  scale_activations_at i >>
  let! q := for_each named_linears (load_linear version i) q_linear_module in
  emit EvEmptyCache >>
  ret q.

Definition _load_quantized_modules (version : PyVal) : M unit :=
  assert_zero_point >>
  let! n := gets (λ st, length (st_layers st)) in
  for_each (seq 0 n) (load_block version) None >>
  ret tt.

(** ** [_awq_search] (lines 113-244) *)

(** [clear_other_layer(layers, i)], lines 163-176. *)
Definition clear_other_layer (i : nat) : M unit :=
  for_range 0 10 (λ idx, layer_to idx Cpu) >>
  let ten := i / 10 * 10 in
  for_range ten (ten + 10) (λ i, layer_to i Cpu) >>
  emit EvEmptyCache.

(** A hook fails on an input of its sublayer that is on the meta device:
    [x.detach().cpu()] has nothing to copy. *)
Definition hook_fails (hooks : gmap nat (nat * string)) (i : nat)
    (call : string * Tensor) : bool :=
  is_meta (t_device call.2) && negb (hooks_on hooks i call.1 =? 0).

(** [inps = layer(inps, **layer_kwargs)[0]] with the hooks in place: an
    exception in a hook ends the forward pass. *)
Definition call_layer (i : nat) (inps : Tensor) (layer_kwargs : Kwargs)
    (input_feat : gmap string (list Tensor))
  : M (Tensor * gmap string (list Tensor)) :=
  let! layer := get_layer i in
  let! hooks := gets st_hooks in
  let fw := block_forward (blk_mods layer) inps layer_kwargs in
  if existsb (hook_fails hooks i) fw.2
  then raise (NotImplementedError meta_copy_message)
  else
    emit (EvForward i inps fw.1) >>
    ret (fw.1, foldl (cache_input_hook hooks i) input_feat fw.2).

(** Lines 185-208: hook every linear sublayer, run the block once, unhook,
    concatenate. *)
Definition capture_inputs (i : nat) (dev : Device) (inps : Tensor)
    (layer_kwargs : Kwargs) : M (Tensor * InputFeat) :=
  let! layer := get_layer i in
  let named_linears := get_named_linears layer in
  let! handles :=
    for_each named_linears
      (λ nl handles,
         let! h := register_forward_hook i nl.1 in ret (handles ++ [h]))
      [] in
  let! inps := tensor_move dev inps in
  let! fw := call_layer i inps layer_kwargs ∅ in
  for_each handles (λ h _, remove_hook h) tt >>
  let input_feat := torch_cat <$> fw.2 in
  emit (EvCat i input_feat) >>
  emit EvEmptyCache >>
  ret (fw.1, input_feat).

(** Lines 210-225, taken when [auto_scale] holds. *)
Definition scale_step (i : nat) (layer_kwargs : Kwargs)
    (input_feat : InputFeat) (awq_results : SearchResult)
  : M (InputFeat * SearchResult) :=
  let! layer := get_layer i in
  let! quant_config := gets st_quant_config in
  let scales_list :=
    auto_scale_block (blk_mods layer) layer_kwargs quant_config input_feat in
  emit (EvAutoScale i (blk_mods layer) input_feat) >>
  let! target := get_layer i in
  let applied := apply_scale (blk_mods target) scales_list input_feat in
  update_mods i (λ _, applied.1) >>
  emit (EvApplyScale i scales_list) >>
  let! layer := get_layer i in
  ret (applied.2,
       {| sr_scale := sr_scale awq_results
                        ++ (prefix_scale (blk_name layer +:+ ".") <$> scales_list);
          sr_clip := sr_clip awq_results |}).

(** Lines 227-236, taken when [mse_range] holds. *)
Definition clip_step (i : nat) (input_feat : InputFeat)
    (awq_results : SearchResult) : M SearchResult :=
  let! layer := get_layer i in
  let! quant_config := gets st_quant_config in
  let clip_list := auto_clip_block (blk_mods layer) quant_config input_feat in
  emit (EvAutoClip i (blk_mods layer) input_feat) >>
  update_mods i (λ mods, apply_clip mods clip_list) >>
  emit (EvApplyClip i clip_list) >>
  let! layer := get_layer i in
  ret {| sr_scale := sr_scale awq_results;
         sr_clip := sr_clip awq_results
                      ++ (prefix_clip (blk_name layer +:+ ".") <$> clip_list) |}.

(** The body of [for i in range(len(layers))], lines 181-242.  The locals
    it rebinds for the next turn are [inps] and [awq_results]. *)
Definition search_block (auto_scale mse_range : bool) (layer_kwargs : Kwargs)
    (i : nat) (loc : Tensor * SearchResult) : M (Tensor * SearchResult) :=
  clear_other_layer i >>
  let dev := Cuda (i / 10) in
  layer_to i dev >>
  let! cap := capture_inputs i dev loc.1 layer_kwargs in
  let! sc :=
    (if auto_scale then scale_step i layer_kwargs cap.2 loc.2
     else ret (cap.2, loc.2)) in
  emit EvEmptyCache >>
  let! awq_results :=
    (if mse_range then clip_step i sc.1 sc.2 else ret sc.2) in
  layer_to i Cpu >>
  emit EvEmptyCache >>
  ret (cap.1, awq_results).

(** Lines 127-157: the inputs of block 0.  [samples] stands for
    [torch.cat(get_calib_dataset(..), dim=0)]: the tokenizer, corpus and
    size arguments reach nothing else.  Lines 144-151 wrap block 0 in a
    [Catcher], run the model until the wrapper raises, and put block 0
    back: what is left of that is [run_prefix]. *)
Definition catch_first_inputs (samples : Tensor) : M (Tensor * Kwargs) :=
  layer_to 0 (Cuda 0) >>
  move_embed (Cuda 0) >>
  let! dev := gets st_embed in
  let! samples := tensor_move dev samples in
  let caught := run_prefix samples in
  layer_to 0 Cpu >>
  move_embed Cpu >>
  emit EvEmptyCache >>
  ret caught.

Definition _awq_search (samples : Tensor) (auto_scale mse_range : bool)
  : M SearchResult :=
  let! caught := catch_first_inputs samples in
  let! n := gets (λ st, length (st_layers st)) in
  let! loc :=
    for_each (seq 0 n) (search_block auto_scale mse_range caught.2)
      (caught.1, {| sr_scale := []; sr_clip := [] |}) in
  ret loc.2.

(** ** [quantize] (lines 45-62) *)

Definition quantize (quant_config : QuantConfig) (samples : Tensor)
    (auto_scale mse_range run_search run_quant : bool) : M unit :=
  modify (with_quant_config (λ _, quant_config)) >>
  let! cfg := gets st_quant_config in
  setitem_config "version"
    (match cfg !! "version" with
     | None => PyStr "GEMM"
     | Some v => v
     end) >>
  (if run_search then
     let! r := _awq_search samples auto_scale mse_range in
     modify (with_search_result (Some r))
   else ret tt) >>
  (if run_quant then _awq_quant >> modify (with_is_quantized true)
   else ret tt).

(** ** [from_quantized] (lines 312-422)

    [quant_config_file] is [json.loads] of [quant_config.json] when the file
    exists; the state it runs on holds the blocks [from_config] built;
    [pretrained] is the model [AutoModelForCausalLM.from_pretrained] loads
    when the checkpoint is not quantized.  An argument the caller leaves
    out is [None] and takes the default of the signature: [version='GEMM'].
    [fuse_layers] is [pass]. *)
Definition from_quantized (quant_config_file : option QuantConfig)
    (is_quantized : bool) (version : option PyVal) (pretrained : list Block)
  : M unit :=
  let version := default (PyStr "GEMM") version in
  (match quant_config_file with
   | Some cfg =>
       modify (with_quant_config (λ _, cfg)) >>
       (match cfg !! "version" with
        | None => setitem_config "version" version
        | Some _ => ret tt
        end)
   | None =>
       modify (with_quant_config (λ _,
         <["zero_point" := PyBool true]>
           (<["q_group_size" := PyInt 128]>
              (<["w_bit" := PyInt 4]> (<["version" := version]> ∅)))))
   end) >>
  (if is_quantized then
     let! v := getitem_config "version" in
     _load_quantized_modules v >>
     modify (with_layers load_checkpoint)
   else modify (with_layers (λ _, pretrained))) >>
  modify (with_is_quantized is_quantized) >>
  modify (with_search_result None).

(** ** [save_quantized] (lines 246-295) *)

(** [_save_files]: [save_pretrained] with an empty state dict writes the
    model's own files and an empty [pytorch_model.bin], which is removed. *)
Definition _save_files (safetensors : bool) (shard_size : string)
    (save_dir model_name : string) (search_result : option SearchResult)
  : M unit :=
  write_file (save_dir +:+ "/config.json") FModelFiles >>
  write_file (save_dir +:+ "/pytorch_model.bin") (FTorchWeights []) >>
  os_remove (save_dir +:+ "/pytorch_model.bin") >>
  (match search_result with
   | Some r => write_file (save_dir +:+ "/" +:+ model_name) (FSearchResult r)
   | None =>
       let model_name :=
         if safetensors then "model.safetensors" else "pytorch_model.bin" in
       let! layers := gets st_layers in
       let sharded :=
         shard_checkpoint (state_dict layers) shard_size model_name in
       for_each sharded.1
         (λ sh _,
            write_file (os_path_join save_dir sh.1)
              (if safetensors then FSafetensors sh.2 else FTorchWeights sh.2))
         tt >>
       match sharded.2 with
       | Some index =>
           write_file (save_dir +:+ "/" +:+ model_name +:+ ".index.json")
             (FShardIndex index)
       | None => ret tt
       end
   end) >>
  let! quant_config := gets st_quant_config in
  write_file (save_dir +:+ "/quant_config.json") (FQuantConfig quant_config).

(** [save_quantized(self, save_dir, safetensors=False, shard_size="10GB")]:
    an argument the caller leaves out is [None]. *)
Definition save_quantized (save_dir : string) (safetensors : option bool)
    (shard_size : option string) : M unit :=
  let safetensors := default false safetensors in
  let shard_size := default "10GB" shard_size in
  let! save_dir :=
    (match str_last save_dir with
     | None => raise (IndexError (-1))
     | Some c =>
         ret (if Ascii.eqb c "/" then str_drop_last save_dir else save_dir)
     end) in
  let! search_result := gets st_search_result in
  let! is_quantized := gets st_is_quantized in
  match search_result with
  | None => _save_files safetensors shard_size save_dir "" None
  | Some r =>
      if is_quantized
      then _save_files safetensors shard_size save_dir "" None
      else _save_files safetensors shard_size save_dir
             "awq_model_search_result.pt" (Some r)
  end.

End Pipeline.

(** * Specification vocabulary *)

(** A frame: a relation every run of [m] keeps between its start state and
    its end state, whether it returns or raises. *)
Definition preserves (R : State → State → Prop) {A} (m : M A) : Prop :=
  ∀ st, R st (m st).2.

(** Equality of a projection of the state is a frame. *)
Definition keeps {X} (proj : State → X) : State → State → Prop :=
  λ st st', proj st' = proj st.

(** The events a run added to the trace. *)
Definition new_events (st st' : State) : list Event :=
  drop (length (st_trace st)) (st_trace st').

(** Work on a block: anything that moves, runs, searches or rewrites it. *)
Definition block_work (e : Event) : bool :=
  match e with
  | EvTo _ _ | EvRegisterHook _ _ _ | EvForward _ _ _ | EvRemoveHook _
  | EvCat _ _ | EvAutoScale _ _ _ | EvApplyScale _ _ | EvAutoClip _ _ _
  | EvApplyClip _ _ | EvPseudoQuantize _ _ | EvFromLinear _ _ _
  | EvSetOp _ _ => true
  | _ => false
  end.

(** The writes to the quant config a trace records. *)
Definition config_writes (t : list Event) : list (string * PyVal) :=
  omap (λ e, match e with EvSetItem k v => Some (k, v) | _ => None end) t.

Definition zero_point_message : string :=
  "We only support zero_point quantization now.".

(** ** A small model to run the pipeline on

    Each block is a norm, a linear sublayer and an activation.  The
    collaborators are the simplest that leave a visible mark: the forward
    pass appends an element, scaling rewrites the norm, clipping and
    pseudo-quantization rewrite the weight. *)

Definition tiny_tensor (d : Device) (x : Z) : Tensor :=
  mkTensor [1] Float16 d [inject_Z x].

Definition tiny_block (k : nat) : Block :=
  mkBlock ("model.layers." +:+ pretty k)
    [("ln", Norm (tiny_tensor (Cuda 0) 1));
     ("fc", Linear (mkLinear (tiny_tensor (Cuda 0) 5) None));
     ("act", Activation "gelu")].

Definition tiny_rewrite (x : Z) (m : Module) : Module :=
  match m with
  | Linear l => Linear (mkLinear (tiny_tensor (t_device (weight l)) x) (bias l))
  | Norm g => Norm (tiny_tensor (t_device g) x)
  | _ => m
  end.

(** A block whose first parameter differs from the others in dtype and
    device, and the same block as [init_empty_weights] builds it. *)
Definition mixed_block : Block :=
  mkBlock "model.layers.0"
    [("ln", Norm (mkTensor [1] BFloat16 (Cuda 1) [1%Q]));
     ("fc", Linear (mkLinear (tiny_tensor (Cuda 0) 5) None));
     ("act", Activation "gelu")].

Definition empty_weights_block : Block :=
  mkBlock "model.layers.0"
    [("ln", Norm (mkTensor [1] BFloat16 MetaDevice []));
     ("fc", Linear (mkLinear (mkTensor [1] Float16 MetaDevice []) None));
     ("act", Activation "gelu")].

#[local] Instance tiny_collaborators : Collaborators := {|
  run_prefix := λ t, (t, []);
  block_forward := λ mods x kw,
    (mkTensor (t_shape x) (t_dtype x) (t_device x) (t_data x ++ [1%Q]),
     (λ nl, (nl.1, x)) <$> get_named_linears (mkBlock "" mods));
  auto_scale_block := λ mods kw cfg feat,
    [mkScale "ln" ["fc"] (tiny_tensor Cpu 2)];
  apply_scale := λ mods sc feat,
    (prod_map id (λ m, match m with Norm _ => tiny_rewrite 2 m | _ => m end)
       <$> mods, feat);
  auto_clip_block := λ mods cfg feat, [mkClip "fc" (tiny_tensor Cpu 3)];
  apply_clip := λ mods cl,
    prod_map id (λ m, match m with Linear _ => tiny_rewrite 3 m | _ => m end)
      <$> mods;
  get_act_for_scaling := λ b,
    match get_op_by_name "act" (blk_mods b) with
    | Some m => Scalable "act" m [2]
    | None => NotScalable
    end;
  pseudo_quantize_tensor := λ w _ _,
    (tiny_tensor (t_device w) 0, tiny_tensor (t_device w) 8,
     tiny_tensor (t_device w) 9);
  t_contiguous := λ t, t;
  state_dict := λ ls, flat_map (λ b, (λ t, (blk_name b, t)) <$> block_parameters b) ls;
  shard_checkpoint := λ sd sz nm, ([(nm, sd)], None);
  load_checkpoint := λ ls, ls
|}.

(** A model of [n] blocks as [from_pretrained] leaves it, nothing else
    set. *)
Definition tiny_model (n : nat) : State :=
  mkState (tiny_block <$> seq 0 n) Cpu ∅ None false ∅ 0 ∅ [].

Definition tiny_config (zero_point : bool) : QuantConfig :=
  <["zero_point" := PyBool zero_point]>
    (<["q_group_size" := PyInt 128]> (<["w_bit" := PyInt 4]> ∅)).

(** Failing fast: the run raises and has done no work on any block. *)
Definition fails_before_any_work {A} (st : State) (r : (Exn + A) * State)
  : Prop :=
  (∃ e, r.1 = inl e) ∧ existsb block_work (new_events st r.2) = false.

(** A run that leaves the quant config alone: the dict is what it was and
    the events added to the trace hold no write to it. *)
Definition config_untouched (st st' : State) : Prop :=
  st_quant_config st' = st_quant_config st
  ∧ ∃ tr, st_trace st' = st_trace st ++ tr ∧ config_writes tr = [].

(** The config [from_quantized] makes up when there is no
    [quant_config.json]. *)
Definition fallback_config (version : PyVal) : QuantConfig :=
  <["zero_point" := PyBool true]>
    (<["q_group_size" := PyInt 128]>
       (<["w_bit" := PyInt 4]> (<["version" := version]> ∅))).

(** The sublayer a state has under a name of block [i]. *)
Definition sublayer_at (i : nat) (name : string) (st : State) : option Module :=
  st_layers st !! i ≫= λ b, get_op_by_name name (blk_mods b).

(** A model whose blocks have no linear sublayer. *)
Definition hollow_model (n : nat) : State :=
  mkState ((λ k, mkBlock ("model.layers." +:+ pretty k)
                   [("ln", Norm (tiny_tensor (Cuda 0) 1))]) <$> seq 0 n)
    Cpu ∅ None false ∅ 0 ∅ [].

(** ** What [save_quantized] is to write *)

(** The directory the files go to: the argument less one trailing slash. *)
Definition target_dir (save_dir : string) : string :=
  match str_last save_dir with
  | Some "/"%char => str_drop_last save_dir
  | _ => save_dir
  end.

(** [save_pretrained] with the empty state dict, and the removal of the
    empty weights file. *)
Definition model_file_events (dir : string) : list Event :=
  [EvWrite (dir +:+ "/config.json") FModelFiles;
   EvWrite (dir +:+ "/pytorch_model.bin") (FTorchWeights []);
   EvRemove (dir +:+ "/pytorch_model.bin")].

Definition weights_name (safetensors : bool) : string :=
  if safetensors then "model.safetensors" else "pytorch_model.bin".

(** One file per shard, then the shard index if the checkpoint library
    returned one. *)
Definition weight_events `{Collaborators} (dir : string) (safetensors : bool)
    (shard_size : string) (layers : list Block) : list Event :=
  let sharded :=
    shard_checkpoint (state_dict layers) shard_size (weights_name safetensors)
  in
  ((λ sh, EvWrite (os_path_join dir sh.1)
            (if safetensors then FSafetensors sh.2 else FTorchWeights sh.2))
     <$> sharded.1)
  ++ match sharded.2 with
     | Some index =>
         [EvWrite (dir +:+ "/" +:+ weights_name safetensors +:+ ".index.json")
            (FShardIndex index)]
     | None => []
     end.

Definition writes_search_result (e : Event) : bool :=
  match e with
  | EvWrite _ (FSearchResult _) => true
  | _ => false
  end.

Definition writes_weights (e : Event) : bool :=
  match e with
  | EvWrite _ (FTorchWeights (_ :: _)) | EvWrite _ (FSafetensors _)
  | EvWrite _ (FShardIndex _) => true
  | _ => false
  end.

(** Records that carry the name of one of the model's blocks in front. *)
Definition globally_named (names : list string) (res : SearchResult) : Prop :=
  Forall (λ r, ∃ name raw, name ∈ names ∧ r = prefix_scale (name +:+ ".") raw)
    (sr_scale res)
  ∧ Forall (λ r, ∃ name raw, name ∈ names ∧ r = prefix_clip (name +:+ ".") raw)
      (sr_clip res).

Definition block_names (st : State) : list string :=
  blk_name <$> st_layers st.

(** The state after a list of files has been written, in order. *)
Definition write_all (ws : list (string * FileData)) (st : State) : State :=
  foldl (λ st w, with_trace (λ t, t ++ [EvWrite w.1 w.2])
                   (with_fs (λ fs, <[w.1 := w.2]> fs) st)) st ws.

(** The search result [save_quantized] is to put in a file of its own. *)
Definition standalone_result (st : State) : option SearchResult :=
  match st_search_result st with
  | Some res => if st_is_quantized st then None else Some res
  | None => None
  end.

(** A run from a state that satisfies [I] returns, in a state that
    satisfies [I]. *)
Definition total (I : State → Prop) {A} (m : M A) : Prop :=
  ∀ st, I st → ∃ a st', m st = (inr a, st') ∧ I st'.

(** The model has [n] blocks. *)
Definition has_blocks (n : nat) (st : State) : Prop :=
  length (st_layers st) = n.

(** Nothing of these sublayers, of this block, is on the meta device. *)
Definition real_sublayers (mods : Sublayers) : Prop :=
  Forall (λ d, is_meta d = false) (flat_map (λ nm, module_devices nm.2) mods).

Definition real_block (b : Block) : Prop := real_sublayers (blk_mods b).

Definition real_tensor (t : Tensor) : Prop := is_meta (t_device t) = false.

(** A model of [n] blocks that holds its weights. *)
Definition real_model (n : nat) (st : State) : Prop :=
  has_blocks n st ∧ Forall real_block (st_layers st).

(** What the search pass needs of the routines it calls to run to its end
    on a model that holds its weights: given data, they return data. *)
Class LawfulCollaborators `{Collaborators} : Prop := {
  run_prefix_real x : real_tensor x → real_tensor (run_prefix x).1;
  block_forward_real mods x kw :
    real_sublayers mods → real_tensor x →
    real_tensor (block_forward mods x kw).1
    ∧ Forall (λ call, real_tensor call.2) (block_forward mods x kw).2;
  apply_scale_real mods scales feat :
    real_sublayers mods → real_sublayers (apply_scale mods scales feat).1;
  apply_clip_real mods clips :
    real_sublayers mods → real_sublayers (apply_clip mods clips)
}.

(** Block [j] of the model is wholly on the host. *)
Definition host_resident (j : nat) (st : State) : Prop :=
  ∃ b, st_layers st !! j = Some b ∧ on_host b.


(** A frame: block [j], once on the host, stays there. *)
Definition stays_on_host (j : nat) (st st' : State) : Prop :=
  host_resident j st → host_resident j st'.

(** ** Hooks *)

(** The state after a hook has been put on each named sublayer of block
    [i], in order. *)
Definition register_all (i : nat) (names : list string) (st : State) : State :=
  foldl (λ st name,
           with_trace (λ t, t ++ [EvRegisterHook (st_next_handle st) i name])
             (with_hooks (λ hs, <[st_next_handle st := (i, name)]> hs)
                (S (st_next_handle st)) st))
    st names.

(** The state after the hooks behind a list of handles have been removed. *)
Definition remove_all (handles : list nat) (st : State) : State :=
  foldl (λ st h,
           with_trace (λ t, t ++ [EvRemoveHook h])
             (with_hooks (λ hs, delete h hs) (st_next_handle st) st))
    st handles.

(** No hook in place has a handle that is still to be issued. *)
Definition hooks_fresh (st : State) : Prop :=
  ∀ h, st_next_handle st ≤ h → st_hooks st !! h = None.

(** The events of one capture on block [i]: hooks on, one forward pass,
    hooks off, concatenation. *)
Definition capture_events (i : nat) (names : list string) (next : nat)
    (inp out : Tensor) (feat : InputFeat) : list Event :=
  zip_with (λ h name, EvRegisterHook h i name)
    (seq next (length names)) names
  ++ [EvForward i inp out]
  ++ (EvRemoveHook <$> seq next (length names))
  ++ [EvCat i feat; EvEmptyCache].

(** ** The search loop *)

(** A frame: the run only adds events, each of which satisfies [P]. *)
Definition adds (P : Event → Prop) (st st' : State) : Prop :=
  ∃ tr, st_trace st' = st_trace st ++ tr ∧ Forall P tr.

(** The forward passes a trace records: block, input, output. *)
Definition forwards (t : list Event) : list (nat * Tensor * Tensor) :=
  omap (λ e, match e with EvForward i x y => Some (i, x, y) | _ => None end) t.

(** Forward passes on consecutive blocks from [start] on, the first fed
    with [inp] and each next one with the output of the one before, put on
    the device of its block. *)
Fixpoint chained (start : nat) (inp : Tensor)
    (fw : list (nat * Tensor * Tensor)) : Prop :=
  match fw with
  | [] => True
  | (i, x, y) :: rest =>
      i = start ∧ x = tensor_to (Cuda (i / 10)) inp ∧ chained (S start) y rest
  end.

(** The step of a block's turn an event belongs to: 1 for activation
    capture, 2 for scale search and its application, 3 for clip search and
    its application. *)
Definition phase (e : Event) : option nat :=
  match e with
  | EvRegisterHook _ _ _ | EvForward _ _ _ | EvRemoveHook _ | EvCat _ _ => Some 1
  | EvAutoScale _ _ _ | EvApplyScale _ _ => Some 2
  | EvAutoClip _ _ _ | EvApplyClip _ _ => Some 3
  | _ => None
  end.

Definition is_hook_event (e : Event) : bool :=
  match e with
  | EvRegisterHook _ _ _ | EvRemoveHook _ => true
  | _ => false
  end.

(** Moving blocks and releasing cached memory. *)
Definition is_housekeeping (e : Event) : bool :=
  match e with
  | EvTo _ _ | EvMoveEmbed _ | EvEmptyCache => true
  | _ => false
  end.

Definition hook_view (st : State) : gmap nat (nat * string) * nat :=
  (st_hooks st, st_next_handle st).

(** In a trace, every event that satisfies [P] comes before every event
    that satisfies [Q]. *)
Definition precedes (P Q : Event → Prop) (tr : list Event) : Prop :=
  ∀ p q e1 e2,
    tr !! p = Some e1 → tr !! q = Some e2 → P e1 → Q e2 → p < q.

Definition in_phase (n : nat) (e : Event) : Prop := phase e = Some n.

(** ** The zero-point guard *)

(** What the guard at the head of a pass raises on a quant config: nothing
    when [zero_point] is truthy. *)
Definition zero_point_error (cfg : QuantConfig) : option Exn :=
  match cfg !! "zero_point" with
  | None => Some (KeyError "zero_point")
  | Some v =>
      if truthy v then None else Some (AssertionError zero_point_message)
  end.

(** The state once [quantize] has taken its [quant_config] argument and
    written the version entry (lines 50-51). *)
Definition config_installed (cfg : QuantConfig) (st : State) : State :=
  let v := default (PyStr "GEMM") (cfg !! "version") in
  with_trace (λ t, t ++ [EvSetItem "version" v])
    (with_quant_config (λ _, <["version" := v]> cfg) st).

(** The outcome of the search stage of [quantize] from a state: the search
    pass and the storing of its result when [run_search] is set, nothing
    otherwise. *)
Definition searched `{Collaborators} (samples : Tensor)
    (auto_scale mse_range run_search : bool) (st : State)
  : (Exn + unit) * State :=
  if run_search then
    match _awq_search samples auto_scale mse_range st with
    | (inl e, st') => (inl e, st')
    | (inr res, st') => (inr tt, with_search_result (Some res) st')
    end
  else (inr tt, st).

(** * Reasoning about [M] *)

Lemma bind_ok {A B} (m : M A) (k : A → M B) st a st1 :
  m st = (inr a, st1) → bind m k st = k a st1.
Proof. intros E. unfold bind. by rewrite E. Qed.

Lemma bind_raise {A B} (m : M A) (k : A → M B) st e st1 :
  m st = (inl e, st1) → bind m k st = (inl e, st1).
Proof. intros E. unfold bind. by rewrite E. Qed.

Lemma bind_inv {A B} (m : M A) (k : A → M B) st b st2 :
  bind m k st = (inr b, st2) →
  ∃ a st1, m st = (inr a, st1) ∧ k a st1 = (inr b, st2).
Proof.
  unfold bind. destruct (m st) as [[e|a] st1]; [done|].
  intros E. by exists a, st1.
Qed.

Lemma bind_inv_any {A B} (m : M A) (k : A → M B) st r st2 :
  bind m k st = (r, st2) →
  (∃ e, m st = (inl e, st2) ∧ r = inl e)
  ∨ (∃ a st1, m st = (inr a, st1) ∧ k a st1 = (r, st2)).
Proof.
  unfold bind. destruct (m st) as [[e|a] st1]; intros E.
  - left. exists e. by inversion E.
  - right. by exists a, st1.
Qed.

Lemma for_each_app {A S} (xs ys : list A) (body : A → S → M S) s st :
  for_each (xs ++ ys) body s st
  = bind (for_each xs body s) (for_each ys body) st.
Proof.
  revert s st. induction xs as [|x xs IH]; intros s st; [done|].
  cbn [app for_each]. unfold bind at 1 3. unfold bind at 1.
  destruct (body x s st) as [[e|s1] st1]; [done|]. by rewrite IH.
Qed.

Lemma bind_assoc {A B C} (m : M A) (f : A → M B) (k : B → M C) st :
  bind (bind m f) k st = bind m (λ a, bind (f a) k) st.
Proof. unfold bind. by destruct (m st) as [[e|a] st1]. Qed.

Lemma step_ret {A B} (a : A) (k : A → M B) st : bind (ret a) k st = k a st.
Proof. reflexivity. Qed.

Lemma step_gets {A B} (f : State → A) (k : A → M B) st :
  bind (gets f) k st = k (f st) st.
Proof. reflexivity. Qed.

Lemma step_modify {B} (f : State → State) (k : unit → M B) st :
  bind (modify f) k st = k tt (f st).
Proof. reflexivity. Qed.

Lemma step_emit {B} (e : Event) (k : unit → M B) st :
  bind (emit e) k st = k tt (with_trace (λ t, t ++ [e]) st).
Proof. reflexivity. Qed.

Lemma step_raise {A B} (e : Exn) (k : A → M B) st :
  bind (raise e) k st = (inl e, st).
Proof. reflexivity. Qed.

Lemma run_ret {A} (a : A) st : ret a st = (inr a, st).
Proof. reflexivity. Qed.

Lemma run_gets {A} (f : State → A) st : gets f st = (inr (f st), st).
Proof. reflexivity. Qed.

Lemma run_modify (f : State → State) st : modify f st = (inr tt, f st).
Proof. reflexivity. Qed.

Lemma run_emit (e : Event) st :
  emit e st = (inr tt, with_trace (λ t, t ++ [e]) st).
Proof. reflexivity. Qed.

Lemma run_raise {A} (e : Exn) st : @raise A e st = (inl e, st).
Proof. reflexivity. Qed.

Lemma step_write_file {B} path data (k : unit → M B) st :
  bind (write_file path data) k st
  = k tt (with_trace (λ t, t ++ [EvWrite path data])
            (with_fs (λ fs, <[path := data]> fs) st)).
Proof. reflexivity. Qed.

Lemma run_write_file path data st :
  write_file path data st
  = (inr tt, with_trace (λ t, t ++ [EvWrite path data])
               (with_fs (λ fs, <[path := data]> fs) st)).
Proof. reflexivity. Qed.

(** Run the leading primitive of a computation applied to a state. *)
Ltac mstep :=
  repeat first
    [ rewrite bind_assoc
    | rewrite step_ret
    | rewrite step_gets
    | rewrite step_modify
    | rewrite step_emit
    | rewrite step_raise
    | rewrite run_ret
    | rewrite run_gets
    | rewrite run_modify
    | rewrite run_emit
    | rewrite run_raise
    | rewrite step_write_file
    | rewrite run_write_file
    | progress cbv beta ].

(** Read a field through the updates made to the state. *)
Ltac st_simpl :=
  cbn [st_layers st_embed st_quant_config st_search_result st_is_quantized
       st_hooks st_next_handle st_fs st_trace
       with_layers with_embed with_quant_config with_search_result
       with_is_quantized with_hooks with_fs with_trace fst snd].

(** ** Frames: what a run relates its start state to *)

Section Frames.
Context (R : State → State → Prop) `{!PreOrder R}.

Lemma preserves_ret {A} (a : A) : preserves R (ret a).
Proof. intros st. reflexivity. Qed.

Lemma preserves_raise {A} e : preserves R (@raise A e).
Proof. intros st. reflexivity. Qed.

Lemma preserves_gets {A} (f : State → A) : preserves R (gets f).
Proof. intros st. reflexivity. Qed.

Lemma preserves_bind {A B} (m : M A) (k : A → M B) :
  preserves R m → (∀ a, preserves R (k a)) → preserves R (bind m k).
Proof.
  intros Hm Hk st. unfold bind. specialize (Hm st).
  destruct (m st) as [[e|a] st1]; [done|].
  etrans; [exact Hm|]. apply Hk.
Qed.

Lemma preserves_for_each {A S} (xs : list A) (body : A → S → M S) s :
  (∀ x s, preserves R (body x s)) → preserves R (for_each xs body s).
Proof.
  intros Hb. revert s. induction xs as [|x xs IH]; intros s.
  - apply preserves_ret.
  - apply preserves_bind; [apply Hb | intros; apply IH].
Qed.

Lemma preserves_modify (f : State → State) :
  (∀ st, R st (f st)) → preserves R (modify f).
Proof. intros Hf st. apply Hf. Qed.

Lemma preserves_run {A} (m : M A) st r st' :
  preserves R m → m st = (r, st') → R st st'.
Proof. intros Hm E. specialize (Hm st). by rewrite E in Hm. Qed.
End Frames.

#[local] Instance keeps_preorder {X} (proj : State → X) : PreOrder (keeps proj).
Proof.
  split; [by intros st | intros a b c Hab Hbc]. unfold keeps in *. congruence.
Qed.

(** Decompose a [preserves] goal along the structure of the program. *)
Ltac frame_step :=
  lazymatch goal with
  | |- preserves _ (bind _ _) => apply preserves_bind; [exact _| |intros ?]
  | |- preserves _ (ret _) => apply preserves_ret; exact _
  | |- preserves _ (raise _) => apply preserves_raise; exact _
  | |- preserves _ (gets _) => apply preserves_gets; exact _
  | |- preserves _ (for_each _ _ _) =>
      apply preserves_for_each; [exact _|intros ? ?]
  | |- preserves _ (for_range _ _ _) => unfold for_range
  | |- preserves _ (if ?b then _ else _) => destruct b
  | |- preserves _ (match ?x with _ => _ end) => destruct x
  end.

(** The primitives, each with the change it makes to the state. *)
Lemma preserves_get_layer R `{!PreOrder R} i : preserves R (get_layer i).
Proof. intros st. unfold get_layer. destruct (_ !! _); reflexivity. Qed.

Lemma preserves_getitem_config R `{!PreOrder R} k :
  preserves R (getitem_config k).
Proof. intros st. unfold getitem_config. destruct (_ !! _); reflexivity. Qed.

Lemma preserves_set_layer R `{!PreOrder R} i b :
  (∀ st, i < length (st_layers st) →
         R st (with_layers (λ ls, <[i := b]> ls) st)) →
  preserves R (set_layer i b).
Proof.
  intros Hf st. unfold set_layer. case_decide; [by apply Hf | reflexivity].
Qed.

Lemma preserves_emit R `{!PreOrder R} e :
  (∀ st, R st (with_trace (λ t, t ++ [e]) st)) → preserves R (emit e).
Proof. intros Hf. by apply preserves_modify. Qed.

(** * [_scale_activations] *)

Lemma get_set_op_by_name name new mods :
  get_op_by_name name (set_op_by_name name new mods) = Some new.
Proof.
  induction mods as [|[n m] rest IH]; cbn.
  - by rewrite String.eqb_refl.
  - destruct (String.eqb n name) eqn:E; cbn; by rewrite E.
Qed.

Lemma torch_ones_all_ones shape dt d :
  Forall (λ q, q = 1%Q) (t_data (torch_ones shape dt d)).
Proof.
  cbn. destruct (is_meta d); [constructor|]. apply Forall_replicate. reflexivity.
Qed.

(** C10. [_scale_activations] leaves a block alone once its scalable
    activation is a [ScaledActivation]; when it wraps, the adapter's scale
    is [torch.ones] of the shape the adapter asked for, with the dtype and
    the device of the block's first parameter: all ones, one per position,
    on a device that holds data, and no data on the meta device; and with
    an adapter that keeps pointing at the sublayer in place under the same
    name, a second application returns the block the first one returned. *)
Theorem scale_activations_idempotent `{Collaborators} (layer : Block) :
  (∀ name act sc shape,
     get_act_for_scaling layer = Scalable name (ScaledActivation act sc) shape →
     _scale_activations layer = inr layer)
  ∧ (∀ name m shape param rest scale,
       get_act_for_scaling layer = Scalable name m shape →
       is_scaled_activation m = false →
       block_parameters layer = param :: rest →
       scale = torch_ones shape (t_dtype param) (t_device param) →
         _scale_activations layer
         = inr {| blk_name := blk_name layer;
                  blk_mods := set_op_by_name name (ScaledActivation m scale)
                                (blk_mods layer) |}
         ∧ Forall (λ q, q = 1%Q) (t_data scale)
         ∧ t_data scale
           = (if is_meta (t_device param) then []
              else replicate (foldr Nat.mul 1 shape) 1%Q)
         ∧ t_shape scale = shape
         ∧ t_dtype scale = t_dtype param
         ∧ t_device scale = t_device param)
  ∧ (∀ layer',
       _scale_activations layer = inr layer' →
       (∀ name m shape,
          get_act_for_scaling layer = Scalable name m shape →
          ∃ m' shape',
            get_act_for_scaling layer' = Scalable name m' shape'
            ∧ get_op_by_name name (blk_mods layer') = Some m') →
       _scale_activations layer' = inr layer').
Proof.
  split; [|split].
  - intros name act sc shape E. unfold _scale_activations. by rewrite E.
  - intros name m shape param rest scale E Hm Hp ->.
    unfold _scale_activations. rewrite E, Hm, Hp.
    repeat split. apply torch_ones_all_ones.
  - intros layer' Hrun Hadapter.
    unfold _scale_activations in Hrun.
    destruct (get_act_for_scaling layer) as [|name m shape] eqn:E.
    { inversion Hrun; subst. unfold _scale_activations. by rewrite E. }
    destruct (is_scaled_activation m) eqn:Hm.
    { inversion Hrun; subst. unfold _scale_activations. by rewrite E, Hm. }
    destruct (block_parameters layer) as [|param rest]; [done|].
    inversion Hrun as [Hl]; clear Hrun.
    destruct (Hadapter name m shape eq_refl) as (m' & shape' & E' & Hget).
    rewrite <- Hl in Hget. cbn in Hget.
    rewrite get_set_op_by_name in Hget. inversion Hget; subst m'.
    unfold _scale_activations. rewrite Hl. by rewrite E'.
Qed.

(** The activation of a block whose first parameter is a [bfloat16] norm on
    [cuda:1], ahead of a [float16] weight on [cuda:0], is wrapped once with
    a [bfloat16] scale of two ones on [cuda:1]; the same block on the meta
    device gets a scale that holds no data. *)
Lemma scale_activations_idempotent_witness :
  (∃ wrapped,
     _scale_activations mixed_block = inr wrapped
     ∧ get_op_by_name "act" (blk_mods wrapped)
       = Some (ScaledActivation (Activation "gelu")
                 (mkTensor [2] BFloat16 (Cuda 1) [1%Q; 1%Q]))
     ∧ _scale_activations wrapped = inr wrapped)
  ∧ (∃ wrapped,
       _scale_activations empty_weights_block = inr wrapped
       ∧ get_op_by_name "act" (blk_mods wrapped)
         = Some (ScaledActivation (Activation "gelu")
                   (mkTensor [2] BFloat16 MetaDevice []))).
Proof.
  split.
  - destruct (scale_activations_idempotent mixed_block) as (_ & Hwrap & Hagain).
    destruct (Hwrap "act" (Activation "gelu") [2]
                (mkTensor [1] BFloat16 (Cuda 1) [1%Q])
                [tiny_tensor (Cuda 0) 5]
                (torch_ones [2] BFloat16 (Cuda 1)))
      as (Hrun & _); [reflexivity..|].
    eexists. split; [exact Hrun|]. split; [reflexivity|].
    apply Hagain; [exact Hrun|].
    intros name m shape E. vm_compute in E. inversion E; subst.
    eexists _, _. split; reflexivity.
  - destruct (scale_activations_idempotent empty_weights_block) as (_ & Hwrap & _).
    destruct (Hwrap "act" (Activation "gelu") [2]
                (mkTensor [1] BFloat16 MetaDevice [])
                [mkTensor [1] Float16 MetaDevice []]
                (torch_ones [2] BFloat16 MetaDevice))
      as (Hrun & _); [reflexivity..|].
    eexists. split; [exact Hrun|]. reflexivity.
Defined.

(** * The zero-point guard *)

Lemma new_events_refl st : new_events st st = [].
Proof. unfold new_events. by rewrite drop_all. Qed.

Lemma new_events_app st st' tr :
  st_trace st' = st_trace st ++ tr → new_events st st' = tr.
Proof. intros E. unfold new_events. rewrite E. by rewrite drop_app_length. Qed.

(** * The quant config is written once *)

Ltac unfold_pipeline :=
  unfold _awq_search, catch_first_inputs, search_block, capture_inputs, scale_step, clip_step,
    call_layer, clear_other_layer, _awq_quant, quantize_block,
    quantize_linear, _load_quantized_modules, load_block, load_linear,
    assert_zero_point, scale_activations_at, first_parameter_device,
    layer_to, tensor_move, module_move, move_guard, update_mods, move_embed,
    register_forward_hook, remove_hook, for_range.

Ltac frame_prims :=
  first
    [ apply preserves_get_layer; exact _
    | apply preserves_getitem_config; exact _
    | apply preserves_set_layer; [exact _|intros ? ?]
    | apply preserves_emit; [exact _|intros ?]
    | apply preserves_modify; intros ? ].

(** Reduce a frame of a pipeline function to the frames of the state
    updates it makes. *)
Ltac frame := unfold_pipeline; repeat first [frame_step | frame_prims].

Lemma config_writes_app t1 t2 :
  config_writes (t1 ++ t2) = config_writes t1 ++ config_writes t2.
Proof. apply omap_app. Qed.

#[local] Instance config_untouched_preorder : PreOrder config_untouched.
Proof.
  split.
  - intros st. split; [done|]. exists []. by rewrite app_nil_r.
  - intros a b c [Hc1 (t1 & Ht1 & Hw1)] [Hc2 (t2 & Ht2 & Hw2)].
    split; [congruence|]. exists (t1 ++ t2).
    rewrite Ht2, Ht1, app_assoc, config_writes_app, Hw1, Hw2. done.
Qed.

Ltac config_untouched_update :=
  split; [reflexivity|]; st_simpl;
  first [ by eexists [_] | by (exists []; rewrite app_nil_r) ].

Lemma awq_search_config `{Collaborators} samples auto_scale mse_range :
  preserves config_untouched (_awq_search samples auto_scale mse_range).
Proof. frame; config_untouched_update. Qed.

Lemma awq_quant_config `{Collaborators} : preserves config_untouched _awq_quant.
Proof. frame; config_untouched_update. Qed.

Lemma load_quantized_modules_config `{Collaborators} version :
  preserves config_untouched (_load_quantized_modules version).
Proof. frame; config_untouched_update. Qed.

Lemma config_untouched_after {A} (m : M A) st0 st1 pre :
  preserves config_untouched m →
  st_trace st1 = st_trace st0 ++ pre →
  st_quant_config (m st1).2 = st_quant_config st1
  ∧ config_writes (new_events st0 (m st1).2) = config_writes pre.
Proof.
  intros Hm Hpre. destruct (Hm st1) as [Hcfg (tr & Htr & Hw)].
  split; [done|].
  rewrite (new_events_app st0 _ (pre ++ tr)).
  - by rewrite config_writes_app, Hw, app_nil_r.
  - by rewrite Htr, Hpre, app_assoc.
Qed.

(** C2, as the code has it.  [quantize] writes the [version] entry once,
    first thing: ["GEMM"] when the dict has none, else the value it has.
    [from_quantized] writes it only when the loaded config has none, and
    then to its own [version] argument, whose default is ["GEMM"]; without
    a config file it builds the fallback config around that argument.
    Nothing later in either run writes to the dict, whether the run returns
    or raises. *)
Theorem version_defaulting `{Collaborators} :
  (∀ cfg samples auto_scale mse_range run_search run_quant st,
     let r := quantize cfg samples auto_scale mse_range run_search run_quant
                st in
     let v := default (PyStr "GEMM") (cfg !! "version") in
     st_quant_config r.2 = <["version" := v]> cfg
     ∧ config_writes (new_events st r.2) = [("version", v)])
  ∧ (∀ file is_quantized version pretrained st,
       let r := from_quantized file is_quantized version pretrained st in
       st_quant_config r.2
       = match file with
         | Some cfg =>
             match cfg !! "version" with
             | Some _ => cfg
             | None => <["version" := default (PyStr "GEMM") version]> cfg
             end
         | None => fallback_config (default (PyStr "GEMM") version)
         end
       ∧ config_writes (new_events st r.2)
         = match file with
           | Some cfg =>
               match cfg !! "version" with
               | Some _ => []
               | None => [("version", default (PyStr "GEMM") version)]
               end
           | None => []
           end).
Proof.
  split.
  - intros cfg samples auto_scale mse_range run_search run_quant st. cbv zeta.
    unfold quantize, setitem_config. mstep. st_simpl.
    match goal with
    | |- context [bind ?m ?k ?s] =>
        destruct (config_untouched_after (bind m k) st s
                    [EvSetItem "version"
                       (default (PyStr "GEMM") (cfg !! "version"))])
          as [Hcfg Hw]
    end.
    + frame; config_untouched_update.
    + st_simpl. by destruct (cfg !! "version").
    + rewrite Hcfg, Hw. st_simpl. by destruct (cfg !! "version").
  - intros file is_quantized version pretrained st. cbv zeta.
    unfold from_quantized, setitem_config. cbv zeta.
    destruct file as [cfg|]; [destruct (cfg !! "version") eqn:Hver|];
      mstep; st_simpl.
    all: match goal with
    | |- context [bind ?m ?k ?s] =>
        let pre := lazymatch goal with
                   | |- context [EvSetItem] =>
                       constr:([EvSetItem "version"
                                  (default (PyStr "GEMM") version)])
                   | _ => constr:(@nil Event)
                   end in
        destruct (config_untouched_after (bind m k) st s pre) as [Hcfg Hw]
    end.
    all: try (frame; config_untouched_update).
    all: try (st_simpl; by rewrite ?app_nil_r).
    all: rewrite Hcfg, Hw; st_simpl; done.
Qed.

(** C2, as the spec states it, fails for a load: a config file without a
    [version] entry, loaded with [version='GEMV'], ends up with ["GEMV"]. *)
Lemma from_quantized_takes_version_argument :
  ¬ (tiny_config true !! "version" = None →
     st_quant_config
       (from_quantized (Some (tiny_config true)) true (Some (PyStr "GEMV")) []
          (tiny_model 10)).2 !! "version"
     = Some (PyStr "GEMM")).
Proof.
  intros Hclaim. specialize (Hclaim eq_refl).
  vm_compute in Hclaim. discriminate Hclaim.
Qed.

(** * The zero-point guard in [quantize] *)

Lemma assert_zero_point_raises `{Collaborators} st e :
  zero_point_error (st_quant_config st) = Some e →
  assert_zero_point st = (inl e, st).
Proof.
  unfold zero_point_error, assert_zero_point, bind, getitem_config.
  destruct (st_quant_config st !! "zero_point") as [v|]; [|by intros [= <-]].
  destruct (truthy v); [done|]. by intros [= <-].
Qed.

Lemma quantize_unfold `{Collaborators} cfg samples auto_scale mse_range
    run_search run_quant st :
  quantize cfg samples auto_scale mse_range run_search run_quant st
  = match searched samples auto_scale mse_range run_search
            (config_installed cfg st) with
    | (inl e, st') => (inl e, st')
    | (inr _, st') =>
        if run_quant
        then bind _awq_quant (λ _, modify (with_is_quantized true)) st'
        else (inr tt, st')
    end.
Proof.
  unfold quantize, setitem_config, searched, config_installed. mstep. st_simpl.
  assert (Hv : match cfg !! "version" with
               | Some v => v
               | None => PyStr "GEMM"
               end = default (PyStr "GEMM") (cfg !! "version"))
    by by destruct (cfg !! "version").
  rewrite Hv. unfold bind at 1.
  destruct run_search.
  - unfold bind at 1.
    destruct (_awq_search _ _ _ _) as [[e|res] st']; [done|].
    rewrite run_modify. by destruct run_quant.
  - rewrite run_ret. by destruct run_quant.
Qed.

(** C1, as the code has it.  The guard on [zero_point] is the first
    statement of the quantization pass and of [_load_quantized_modules]:
    with an entry that is not truthy each raises [AssertionError], with no
    entry [KeyError], at once and leaving the whole state as it found it.
    [quantize] runs the search stage first and unguarded: without
    [run_quant] its outcome is that of the search stage whatever
    [zero_point] is; with [run_quant] and a bad [zero_point] a search stage
    that raises is the outcome, and one that returns is followed by the
    guard's error in the state the search left, so that without
    [run_search] no work has been done on any block. *)
Theorem zero_point_guard `{Collaborators} :
  (∀ st e,
     zero_point_error (st_quant_config st) = Some e →
     _awq_quant st = (inl e, st)
     ∧ ∀ version, _load_quantized_modules version st = (inl e, st))
  ∧ (∀ cfg samples auto_scale mse_range run_search st,
       quantize cfg samples auto_scale mse_range run_search false st
       = searched samples auto_scale mse_range run_search
           (config_installed cfg st))
  ∧ (∀ cfg samples auto_scale mse_range run_search st e,
       zero_point_error cfg = Some e →
       quantize cfg samples auto_scale mse_range run_search true st
       = match searched samples auto_scale mse_range run_search
               (config_installed cfg st) with
         | (inl e', st') => (inl e', st')
         | (inr _, st') => (inl e, st')
         end)
  ∧ (∀ cfg samples auto_scale mse_range st e,
       zero_point_error cfg = Some e →
       let r := quantize cfg samples auto_scale mse_range false true st in
       r.1 = inl e
       ∧ st_layers r.2 = st_layers st
       ∧ fails_before_any_work st r).
Proof.
  assert (Hpass : ∀ st e,
    zero_point_error (st_quant_config st) = Some e →
    _awq_quant st = (inl e, st)
    ∧ ∀ version, _load_quantized_modules version st = (inl e, st)).
  { intros st e He. split; [|intros version].
    - unfold _awq_quant. apply bind_raise, (assert_zero_point_raises _ _ He).
    - unfold _load_quantized_modules.
      apply bind_raise, (assert_zero_point_raises _ _ He). }
  assert (Hguard : ∀ cfg samples auto_scale mse_range run_search st e,
    zero_point_error cfg = Some e →
    quantize cfg samples auto_scale mse_range run_search true st
    = match searched samples auto_scale mse_range run_search
            (config_installed cfg st) with
      | (inl e', st') => (inl e', st')
      | (inr _, st') => (inl e, st')
      end).
  { intros cfg samples auto_scale mse_range run_search st e He.
    rewrite quantize_unfold.
    assert (Hcfg : ∀ s, st_quant_config s
                        = st_quant_config (config_installed cfg st) →
                        zero_point_error (st_quant_config s) = Some e).
    { intros s ->. unfold config_installed, zero_point_error in *. st_simpl.
      by rewrite lookup_insert_ne. }
    unfold searched. destruct run_search.
    - destruct (_awq_search samples auto_scale mse_range
                  (config_installed cfg st)) as [[e'|res] st'] eqn:E; [done|].
      destruct (preserves_run _ _ _ _ _
                  (awq_search_config samples auto_scale mse_range) E)
        as [Hsame _].
      apply bind_raise, Hpass, Hcfg. st_simpl. exact Hsame.
    - by apply bind_raise, Hpass, Hcfg. }
  split; [exact Hpass|]. split; [|split; [exact Hguard|]].
  - intros cfg samples auto_scale mse_range run_search st.
    rewrite quantize_unfold.
    by destruct (searched _ _ _ _ _) as [[e|[]] st'].
  - intros cfg samples auto_scale mse_range st e He. cbv zeta.
    rewrite (Hguard _ _ _ _ _ _ _ He). unfold searched, config_installed.
    st_simpl. split; [done|]. split; [done|]. split; [by eexists|]. st_simpl.
    by erewrite new_events_app by (st_simpl; reflexivity).
Qed.

(** On the small model: the quantization pass stops at the guard, with
    [zero_point] false and with no [zero_point] at all; [quantize] with the
    search stage alone returns with the ten blocks searched, and with both
    stages it raises after the same search. *)
Lemma zero_point_guard_witness :
  _awq_quant (with_quant_config (λ _, tiny_config false) (tiny_model 10))
  = (inl (AssertionError zero_point_message),
     with_quant_config (λ _, tiny_config false) (tiny_model 10))
  ∧ _awq_quant (tiny_model 10) = (inl (KeyError "zero_point"), tiny_model 10)
  ∧ (quantize (tiny_config false) (tiny_tensor Cpu 7) true true true false
       (tiny_model 10)).1 = inr tt
  ∧ (quantize (tiny_config false) (tiny_tensor Cpu 7) true true true true
       (tiny_model 10)).1 = inl (AssertionError zero_point_message).
Proof.
  destruct zero_point_guard as (Hpass & Hsearch & Hguard & _).
  split; [|split; [|split]].
  - apply (Hpass (with_quant_config (λ _, tiny_config false) (tiny_model 10))).
    reflexivity.
  - apply (Hpass (tiny_model 10)). reflexivity.
  - rewrite Hsearch. vm_compute. reflexivity.
  - rewrite (Hguard (tiny_config false) (tiny_tensor Cpu 7) true true true
               (tiny_model 10) (AssertionError zero_point_message)
               ltac:(vm_compute; reflexivity)).
    vm_compute. reflexivity.
Defined.

(** C1, as the spec states it, fails: with the default arguments [quantize]
    searches all ten blocks of the small model before the guard is
    reached. *)
Lemma quantize_searches_before_guard :
  ¬ (tiny_config false !! "zero_point" ≠ Some (PyBool true) →
     fails_before_any_work (tiny_model 10)
       (quantize (tiny_config false) (tiny_tensor Cpu 7)
          true true true true (tiny_model 10))).
Proof.
  intros Hclaim. destruct Hclaim as [_ Hwork].
  - intros E. vm_compute in E. discriminate E.
  - vm_compute in Hwork. discriminate Hwork.
Qed.

(** * An unknown version tag *)

(** C7 does not hold of the code.  With the version tag ["MARLIN"] the
    quantization pass has already pseudo-quantized the weight of the first
    linear sublayer (5 before, 0 after, still in place in the block) when
    it raises, and what it raises is [UnboundLocalError]: neither branch of
    the [if]/[elif] on the version bound [q_linear_module].  A load raises
    the same error, and a model without linear sublayers is quantized with
    no error at all. *)
Theorem unknown_version_raises_after_quantizing :
  let cfg := <["version" := PyStr "MARLIN"]> (tiny_config true) in
  let r := quantize cfg (tiny_tensor Cpu 7) true true false true
             (tiny_model 10) in
  r.1 = inl (UnboundLocalError "q_linear_module")
  ∧ sublayer_at 0 "fc" (tiny_model 10)
    = Some (Linear (mkLinear (tiny_tensor (Cuda 0) 5) None))
  ∧ sublayer_at 0 "fc" r.2
    = Some (Linear (mkLinear (tiny_tensor (Cuda 0) 0) None))
  ∧ new_events (tiny_model 10) r.2
    = [EvSetItem "version" (PyStr "MARLIN"); EvPseudoQuantize 0 "fc"]
  ∧ (from_quantized (Some cfg) true None [] (tiny_model 10)).1
    = inl (UnboundLocalError "q_linear_module")
  ∧ (quantize cfg (tiny_tensor Cpu 7) true true false true (hollow_model 10)).1
    = inr tt.
Proof. vm_compute. repeat split; reflexivity. Qed.

(** * [save_quantized] *)

Lemma append_inj_l (s a b : string) : s +:+ a = s +:+ b → a = b.
Proof. induction s as [|c s IH]; cbn; [done|]. intros E. apply IH. by inversion E. Qed.

Lemma write_all_trace ws st :
  st_trace (write_all ws st) = st_trace st ++ ((λ w, EvWrite w.1 w.2) <$> ws).
Proof.
  revert st. induction ws as [|w ws IH]; intros st; cbn.
  - by rewrite app_nil_r.
  - unfold write_all in IH. rewrite IH. st_simpl. by rewrite <- app_assoc.
Qed.

Lemma write_all_keeps {X} (proj : State → X) ws st :
  (∀ f st, proj (with_trace f st) = proj st) →
  (∀ f st, proj (with_fs f st) = proj st) →
  proj (write_all ws st) = proj st.
Proof.
  intros Ht Hf. revert st. induction ws as [|w ws IH]; intros st; cbn; [done|].
  unfold write_all in IH. by rewrite IH, Ht, Hf.
Qed.

Lemma for_each_write {A} (xs : list A) (p : A → string) (d : A → FileData) st :
  for_each xs (λ x _, write_file (p x) (d x)) tt st
  = (inr tt, write_all ((λ x, (p x, d x)) <$> xs) st).
Proof.
  revert st. induction xs as [|x xs IH]; intros st; [done|].
  cbn [for_each]. mstep. by rewrite IH.
Qed.

Lemma str_last_nonempty s : s ≠ "" → ∃ c, str_last s = Some c.
Proof.
  induction s as [|c s IH]; [done|]. intros _. cbn.
  destruct s as [|c' s']; [by eexists|]. by apply IH.
Qed.

Lemma existsb_weight_events `{Collaborators} dir safetensors shard_size layers :
  existsb writes_search_result
    (weight_events dir safetensors shard_size layers) = false.
Proof.
  unfold weight_events. cbv zeta. rewrite existsb_app.
  apply orb_false_iff. split.
  - induction (shard_checkpoint _ _ _).1 as [|sh shs IH]; [done|].
    cbn. rewrite IH. by destruct safetensors.
  - by destruct (shard_checkpoint _ _ _).2.
Qed.

(** What one call of [save_quantized] does, whatever the state. *)
Lemma save_quantized_spec `{Collaborators} (st : State) (save_dir : string)
    (safetensors : option bool) (shard_size : option string) :
  save_dir ≠ "" →
  let dir := target_dir save_dir in
  let r := save_quantized save_dir safetensors shard_size st in
  r.1 = inr tt
  ∧ new_events st r.2
    = model_file_events dir
      ++ match standalone_result st with
         | Some res =>
             [EvWrite (dir +:+ "/awq_model_search_result.pt")
                (FSearchResult res)]
         | None =>
             weight_events dir (default false safetensors)
               (default "10GB" shard_size) (st_layers st)
         end
      ++ [EvWrite (dir +:+ "/quant_config.json")
            (FQuantConfig (st_quant_config st))]
  ∧ st_fs r.2 !! (dir +:+ "/quant_config.json")
    = Some (FQuantConfig (st_quant_config st))
  ∧ (∀ res, standalone_result st = Some res →
        st_fs r.2 !! (dir +:+ "/awq_model_search_result.pt")
        = Some (FSearchResult res)).
Proof.
  intros Hne. destruct (str_last_nonempty _ Hne) as [c Hc]. cbv zeta.
  assert (Hdir : (if Ascii.eqb c "/" then str_drop_last save_dir else save_dir)
                 = target_dir save_dir).
  { unfold target_dir. rewrite Hc.
    destruct (Ascii.eqb_spec c "/") as [->|Hc']; [done|].
    destruct c as [[] [] [] [] [] [] [] []]; try done. }
  set (dir := target_dir save_dir) in *.
  unfold save_quantized. cbv zeta. rewrite Hc. mstep. rewrite Hdir.
  assert (Hfiles : ∀ name sr,
    let r := _save_files (default false safetensors) (default "10GB" shard_size)
               dir name sr st in
    r.1 = inr tt
    ∧ new_events st r.2
      = model_file_events dir
        ++ match sr with
           | Some res => [EvWrite (dir +:+ "/" +:+ name) (FSearchResult res)]
           | None =>
               weight_events dir (default false safetensors)
                 (default "10GB" shard_size) (st_layers st)
           end
        ++ [EvWrite (dir +:+ "/quant_config.json")
              (FQuantConfig (st_quant_config st))]
    ∧ st_fs r.2 !! (dir +:+ "/quant_config.json")
      = Some (FQuantConfig (st_quant_config st))
    ∧ (∀ res, sr = Some res → name ≠ "quant_config.json" →
          st_fs r.2 !! (dir +:+ "/" +:+ name) = Some (FSearchResult res))).
  { intros name sr. cbv zeta.
    unfold _save_files, os_remove. mstep. st_simpl.
    rewrite lookup_insert_eq. mstep.
    destruct sr as [res|].
    - mstep. st_simpl. repeat split.
      + by erewrite new_events_app by (st_simpl; rewrite <- !app_assoc; reflexivity).
      + apply lookup_insert_eq.
      + intros res' [= <-] Hname. rewrite lookup_insert_ne, lookup_insert_eq; [done|].
        intros E. apply append_inj_l in E. by inversion E.
    - mstep. st_simpl. fold (weights_name (default false safetensors)).
      rewrite (bind_ok _ _ _ _ _
                 (for_each_write _ (λ sh, os_path_join dir sh.1)
                    (λ sh, if default false safetensors
                           then FSafetensors sh.2 else FTorchWeights sh.2) _)).
      set (ws := (λ x, _) <$> _).
      assert (Hlayers : ∀ st0, st_layers (write_all ws st0) = st_layers st0)
        by (intros; by apply write_all_keeps).
      assert (Hcfg : ∀ st0, st_quant_config (write_all ws st0) = st_quant_config st0)
        by (intros; by apply write_all_keeps).
      assert (Hev : weight_events dir (default false safetensors)
                 (default "10GB" shard_size) (st_layers st)
               = ((λ w, EvWrite w.1 w.2) <$> ws)
                 ++ match (shard_checkpoint (state_dict (st_layers st))
                             (default "10GB" shard_size)
                             (weights_name (default false safetensors))).2 with
                    | Some index =>
                        [EvWrite (dir +:+ "/"
                                  +:+ weights_name (default false safetensors)
                                  +:+ ".index.json") (FShardIndex index)]
                    | None => []
                    end).
      { unfold weight_events. cbv zeta. f_equal. subst ws.
        rewrite <- list_fmap_compose. done. }
      rewrite Hev.
      destruct (shard_checkpoint _ _ _).2 as [index|]; mstep; st_simpl;
        rewrite ?Hcfg; st_simpl.
      all: repeat split; [ | apply lookup_insert_eq | done ].
      all: erewrite new_events_app; [reflexivity|].
      all: st_simpl; rewrite write_all_trace; st_simpl;
        by rewrite <- !app_assoc. }
  unfold standalone_result.
  destruct (st_search_result st) as [res|] eqn:Hres;
    [destruct (st_is_quantized st) eqn:Hq|].
  - destruct (Hfiles "" None) as (H1 & H2 & H3 & _). by repeat split.
  - destruct (Hfiles "awq_model_search_result.pt" (Some res))
      as (H1 & H2 & H3 & H4).
    repeat split; [done..|]. intros res' [= <-]. by apply H4.
  - destruct (Hfiles "" None) as (H1 & H2 & H3 & _). by repeat split.
Qed.

(** * Runs that return *)

Section Total.
Context (I : State → Prop).

Lemma total_ret {A} (a : A) : total I (ret a).
Proof. intros st HI. by exists a, st. Qed.

Lemma total_gets {A} (f : State → A) : total I (gets f).
Proof. intros st HI. by exists (f st), st. Qed.

Lemma total_modify (f : State → State) :
  (∀ st, I st → I (f st)) → total I (modify f).
Proof. intros Hf st HI. exists tt, (f st). split; [done|]. by apply Hf. Qed.

Lemma total_bind {A B} (m : M A) (k : A → M B) :
  total I m → (∀ a, total I (k a)) → total I (bind m k).
Proof.
  intros Hm Hk st HI. destruct (Hm st HI) as (a & st1 & E & HI1).
  destruct (Hk a st1 HI1) as (b & st2 & E2 & HI2).
  exists b, st2. split; [|done]. by rewrite (bind_ok _ _ _ _ _ E).
Qed.

Lemma total_for_each {A S} (xs : list A) (body : A → S → M S) s :
  (∀ x s, x ∈ xs → total I (body x s)) → total I (for_each xs body s).
Proof.
  revert s. induction xs as [|x xs IH]; intros s Hb.
  - apply total_ret.
  - apply total_bind.
    + apply Hb. by left.
    + intros s1. apply IH. intros y s2 Hy. apply Hb. by right.
Qed.

Lemma total_get_layer i :
  (∀ st, I st → i < length (st_layers st)) → total I (get_layer i).
Proof.
  intros Hi st HI. unfold get_layer.
  destruct (lookup_lt_is_Some_2 _ _ (Hi st HI)) as [b ->]. by exists b, st.
Qed.

Lemma total_set_layer i b :
  (∀ st, I st → i < length (st_layers st)) →
  (∀ st, I st → I (with_layers (λ ls, <[i := b]> ls) st)) →
  total I (set_layer i b).
Proof.
  intros Hi Hf st HI. unfold set_layer.
  rewrite decide_True by by apply Hi. eexists tt, _. split; [done|]. by apply Hf.
Qed.

Lemma total_emit e :
  (∀ st, I st → I (with_trace (λ t, t ++ [e]) st)) → total I (emit e).
Proof. intros Hf. by apply total_modify. Qed.
End Total.

Ltac total_step :=
  lazymatch goal with
  | |- total _ (bind _ _) => apply total_bind; [|intros ?]
  | |- total _ (ret _) => apply total_ret
  | |- total _ (gets _) => apply total_gets
  | |- total _ (for_each _ _ _) => apply total_for_each; intros ? ? ?
  | |- total _ (for_range _ _ _) => unfold for_range
  | |- total _ (get_layer _) => apply total_get_layer; intros ? ?
  | |- total _ (set_layer _ _) => apply total_set_layer; intros ? ?
  | |- total _ (emit _) => apply total_emit; intros ? ?
  | |- total _ (modify _) => apply total_modify; intros ? ?
  | |- total _ (if ?b then _ else _) => destruct b
  | |- total _ (match ?x with _ => _ end) => destruct x
  end.

Ltac unfold_search :=
  unfold catch_first_inputs, search_block, capture_inputs, scale_step,
    clip_step, call_layer,
    clear_other_layer, update_mods, move_embed,
    register_forward_hook, remove_hook, for_range.

(** Side conditions on the number of blocks. *)
Ltac blocks_tac :=
  unfold has_blocks in *; st_simpl; rewrite ?length_insert;
  repeat match goal with
    | H : _ ∈ seq _ _ |- _ => apply elem_of_seq in H
    end;
  try lia.

(** * Moving a block *)

Lemma step_get_layer {B} i (k : Block → M B) st b :
  st_layers st !! i = Some b → bind (get_layer i) k st = k b st.
Proof. intros E. apply bind_ok. unfold get_layer. by rewrite E. Qed.

Lemma step_set_layer {B} i b (k : unit → M B) st :
  i < length (st_layers st) →
  bind (set_layer i b) k st = k tt (with_layers (λ ls, <[i := b]> ls) st).
Proof. intros Hi. apply bind_ok. unfold set_layer. by rewrite decide_True. Qed.

Lemma get_layer_inv i st b st' :
  get_layer i st = (inr b, st') → st_layers st !! i = Some b ∧ st' = st.
Proof.
  unfold get_layer. destruct (st_layers st !! i) as [b'|]; [|done].
  by intros [= -> ->].
Qed.

Lemma set_layer_inv i b st st' :
  set_layer i b st = (inr tt, st') →
  i < length (st_layers st) ∧ st' = with_layers (λ ls, <[i := b]> ls) st.
Proof. unfold set_layer. case_decide; [|done]. by intros [= <-]. Qed.

Lemma movable_real d devs :
  Forall (λ x, is_meta x = false) devs → movable d devs = true.
Proof.
  intros Hd. unfold movable. apply orb_true_iff. right.
  induction Hd as [|x l Hx _ IH]; [done|]. cbn. by rewrite Hx.
Qed.

Lemma movable_tensor d t : real_tensor t → movable d [t_device t] = true.
Proof. intros Ht. apply movable_real. by constructor. Qed.

Lemma move_guard_ok d devs st :
  movable d devs = true → move_guard d devs st = (inr tt, st).
Proof. intros G. unfold move_guard. by rewrite G. Qed.

Lemma move_guard_blocked d devs st :
  movable d devs = false →
  move_guard d devs st = (inl (NotImplementedError meta_copy_message), st).
Proof. intros G. unfold move_guard. by rewrite G. Qed.

Lemma layer_to_run i d st b :
  st_layers st !! i = Some b →
  movable d (block_devices b) = true →
  layer_to i d st
  = (inr tt, with_trace (λ t, t ++ [EvTo i d])
               (with_layers (λ ls, <[i := block_to d b]> ls) st)).
Proof.
  intros E G. unfold layer_to. rewrite (step_get_layer _ _ _ _ E).
  rewrite (bind_ok _ _ _ _ _ (move_guard_ok _ _ _ G)).
  rewrite step_set_layer by by eapply lookup_lt_Some. by mstep.
Qed.

(** A block with a tensor on the meta device stays where it is. *)
Lemma layer_to_blocked i d st b :
  st_layers st !! i = Some b →
  movable d (block_devices b) = false →
  layer_to i d st = (inl (NotImplementedError meta_copy_message), st).
Proof.
  intros E G. unfold layer_to. rewrite (step_get_layer _ _ _ _ E).
  by rewrite (bind_raise _ _ _ _ _ (move_guard_blocked _ _ _ G)).
Qed.

Lemma layer_to_absent i d st :
  st_layers st !! i = None →
  layer_to i d st = (inl (IndexError (Z.of_nat i)), st).
Proof. intros E. unfold layer_to, bind, get_layer. by rewrite E. Qed.

Lemma layer_to_inv i d st u st' :
  layer_to i d st = (inr u, st') →
  ∃ b, st_layers st !! i = Some b
       ∧ movable d (block_devices b) = true
       ∧ st' = with_trace (λ t, t ++ [EvTo i d])
                 (with_layers (λ ls, <[i := block_to d b]> ls) st).
Proof.
  intros E. destruct (st_layers st !! i) as [b|] eqn:Hb.
  - exists b. destruct (movable d (block_devices b)) eqn:G.
    + rewrite (layer_to_run _ _ _ _ Hb G) in E. by inversion E.
    + by rewrite (layer_to_blocked _ _ _ _ Hb G) in E.
  - by rewrite (layer_to_absent _ _ _ Hb) in E.
Qed.

(** A move that raises has changed nothing. *)
Lemma layer_to_raises_inv i d st e st' :
  layer_to i d st = (inl e, st') → st' = st.
Proof.
  intros E. destruct (st_layers st !! i) as [b|] eqn:Hb.
  - destruct (movable d (block_devices b)) eqn:G.
    + by rewrite (layer_to_run _ _ _ _ Hb G) in E.
    + rewrite (layer_to_blocked _ _ _ _ Hb G) in E. by inversion E.
  - rewrite (layer_to_absent _ _ _ Hb) in E. by inversion E.
Qed.

Lemma module_devices_to d m : Forall (λ x, x = d) (module_devices (module_to d m)).
Proof.
  induction m as [l| | |a IH s|g]; cbn.
  - destruct l as [w [b|]]; cbn; repeat constructor.
  - by repeat constructor.
  - constructor.
  - by constructor.
  - by repeat constructor.
Qed.

Lemma block_devices_to d b : Forall (λ x, x = d) (block_devices (block_to d b)).
Proof.
  unfold block_devices, block_to. cbn.
  induction (blk_mods b) as [|[n m] rest IH]; cbn; [constructor|].
  apply Forall_app. split; [apply module_devices_to | apply IH].
Qed.

Lemma block_to_real d b : is_meta d = false → real_block (block_to d b).
Proof.
  intros Hd. eapply Forall_impl; [apply (block_devices_to d b)|].
  by intros ? ->.
Qed.

(** ** Models that hold their weights *)

Lemma real_model_lookup n st i b :
  real_model n st → st_layers st !! i = Some b → real_block b.
Proof. intros [_ Hr] Hb. by eapply Forall_lookup_1. Qed.

Lemma real_model_insert n st i b f :
  real_model n st → real_block b →
  real_model n (with_trace f (with_layers (λ ls, <[i := b]> ls) st)).
Proof.
  intros [Hn Hr] Hb. split; [blocks_tac|]. st_simpl. by apply Forall_insert.
Qed.

Lemma layer_to_total n i d :
  i < n → is_meta d = false → total (real_model n) (layer_to i d).
Proof.
  intros Hi Hd st Hst.
  destruct (lookup_lt_is_Some_2 (st_layers st) i) as [b Hb];
    [destruct Hst as [Hn _]; blocks_tac|].
  exists tt. eexists. split.
  - apply (layer_to_run _ _ _ _ Hb), movable_real.
    apply (real_model_lookup _ _ _ _ Hst Hb).
  - apply real_model_insert; [done|]. by apply block_to_real.
Qed.

(** In a model of [n] blocks, moving the blocks of a range within the model
    returns. *)
Lemma for_range_layer_to_total n a b d :
  b ≤ n → is_meta d = false →
  total (real_model n) (for_range a b (λ i, layer_to i d)).
Proof.
  intros Hb Hd. unfold for_range. apply total_for_each. intros i [] Hi.
  apply layer_to_total; [|done]. apply elem_of_seq in Hi. lia.
Qed.

(** A range that leaves the model runs into the first index past it. *)
Lemma for_range_layer_to_raises n a b d st :
  real_model n st → a ≤ n → n < b → is_meta d = false →
  ∃ st', for_range a b (λ i, layer_to i d) st
         = (inl (IndexError (Z.of_nat n)), st')
         ∧ real_model n st'.
Proof.
  intros Hn Ha Hb Hd.
  unfold for_range. replace (b - a) with ((n - a) + (b - n)) by lia.
  rewrite seq_app, for_each_app.
  destruct (for_range_layer_to_total n a n d (le_n n) Hd st Hn)
    as ([] & st1 & E1 & Hn1).
  unfold for_range in E1. rewrite (bind_ok _ _ _ _ _ E1).
  replace (a + (n - a)) with n by lia.
  destruct (b - n) as [|k] eqn:Hk; [lia|]. cbn [seq for_each].
  exists st1. split; [|done].
  apply bind_raise, layer_to_absent.
  apply lookup_ge_None_2. destruct Hn1 as [Hlen _]. unfold has_blocks in Hlen. lia.
Qed.

Lemma total_move_guard (I : State → Prop) d devs :
  movable d devs = true → total I (move_guard d devs).
Proof. intros G st HI. exists tt, st. by rewrite (move_guard_ok _ _ _ G). Qed.

Lemma real_model_trace n f st : real_model n st → real_model n (with_trace f st).
Proof. done. Qed.

Lemma real_model_embed n d st : real_model n st → real_model n (with_embed d st).
Proof. done. Qed.

Lemma catch_first_inputs_total `{Collaborators} n samples :
  0 < n → real_tensor samples →
  total (real_model n) (catch_first_inputs samples).
Proof.
  intros Hn Hs. unfold catch_first_inputs, move_embed, tensor_move.
  repeat first
    [ apply layer_to_total; [lia|done]
    | apply total_move_guard; by apply movable_tensor
    | total_step ]; done.
Qed.

Lemma decade_within (x n : nat) : x < n / 10 * 10 → x / 10 * 10 + 10 ≤ n / 10 * 10.
Proof.
  intros Hx. assert (x / 10 < n / 10) by (apply Nat.Div0.div_lt_upper_bound; lia).
  nia.
Qed.

Lemma decade_le (n : nat) : n / 10 * 10 ≤ n.
Proof. pose proof (Nat.div_mod n 10). lia. Qed.

Lemma decade_partial (n : nat) :
  n < 10 ∨ n mod 10 ≠ 0 → 0 < n → n / 10 * 10 < n ∧ n < n / 10 * 10 + 10.
Proof.
  intros Hn Hpos. pose proof (Nat.div_mod n 10).
  pose proof (Nat.mod_upper_bound n 10).
  destruct Hn as [Hn|Hn]; [|lia].
  rewrite (Nat.div_small n 10) by lia. lia.
Qed.

(** Clearing the other blocks returns when the decade of [i] lies within
    the model. *)
Lemma clear_other_layer_total `{Collaborators} n i :
  10 ≤ n → i / 10 * 10 + 10 ≤ n →
  total (real_model n) (clear_other_layer i).
Proof.
  intros Hn Hi. unfold clear_other_layer.
  repeat first
    [ apply for_range_layer_to_total; [lia|done]
    | total_step ]; done.
Qed.

Lemma clear_other_layer_raises `{Collaborators} n st :
  real_model n st → n < 10 ∨ n mod 10 ≠ 0 → 0 < n →
  ∃ st', clear_other_layer (n / 10 * 10) st
         = (inl (IndexError (Z.of_nat n)), st')
         ∧ real_model n st'.
Proof.
  intros Hst Hn Hpos. destruct (decade_partial n Hn Hpos) as [Hlt Hgt].
  unfold clear_other_layer. cbv zeta.
  destruct (decide (n < 10)) as [Hsmall|Hbig].
  - destruct (for_range_layer_to_raises n 0 10 Cpu st Hst) as (st' & E & Hst');
      [lia..|done|].
    exists st'. split; [|done]. by apply bind_raise.
  - destruct (for_range_layer_to_total n 0 10 Cpu ltac:(lia) eq_refl st Hst)
      as ([] & st1 & E1 & Hst1).
    rewrite (bind_ok _ _ _ _ _ E1). rewrite Nat.div_mul by done.
    destruct (for_range_layer_to_raises n (n / 10 * 10) (n / 10 * 10 + 10)
                Cpu st1 Hst1) as (st' & E & Hst'); [lia..|done|].
    exists st'. split; [|done]. by apply bind_raise.
Qed.

(** * Block residency *)

#[local] Instance stays_on_host_preorder j : PreOrder (stays_on_host j).
Proof.
  split; [intros st Hst; exact Hst|].
  intros a b c Hab Hbc Ha. apply Hbc, Hab, Ha.
Qed.



(** * Activation capture *)

Lemma register_loop i (nls : list (string * LinearData)) handles st :
  for_each nls
    (λ nl handles,
       let! h := register_forward_hook i nl.1 in ret (handles ++ [h]))
    handles st
  = (inr (handles ++ seq (st_next_handle st) (length nls)),
     register_all i nls.*1 st).
Proof.
  revert handles st. induction nls as [|nl nls IH]; intros handles st.
  - cbn. by rewrite app_nil_r.
  - cbn [for_each]. unfold register_forward_hook at 1. mstep.
    rewrite IH. st_simpl. cbn [length seq fmap list_fmap].
    by rewrite <- app_assoc.
Qed.

Lemma remove_loop handles st :
  for_each handles (λ h _, remove_hook h) tt st = (inr tt, remove_all handles st).
Proof.
  revert st. induction handles as [|h hs IH]; intros st; [done|].
  cbn [for_each]. unfold remove_hook at 1. mstep. by rewrite IH.
Qed.

Lemma register_all_keeps {X} (proj : State → X) i names st :
  (∀ f st, proj (with_trace f st) = proj st) →
  (∀ f n st, proj (with_hooks f n st) = proj st) →
  proj (register_all i names st) = proj st.
Proof.
  intros Ht Hh. revert st. induction names as [|name names IH]; intros st; [done|].
  cbn. unfold register_all in IH. by rewrite IH, Ht, Hh.
Qed.

Lemma remove_all_keeps {X} (proj : State → X) handles st :
  (∀ f st, proj (with_trace f st) = proj st) →
  (∀ f n st, proj (with_hooks f n st) = proj st) →
  proj (remove_all handles st) = proj st.
Proof.
  intros Ht Hh. revert st. induction handles as [|h hs IH]; intros st; [done|].
  cbn. unfold remove_all in IH. by rewrite IH, Ht, Hh.
Qed.

Lemma register_all_next i names st :
  st_next_handle (register_all i names st) = st_next_handle st + length names.
Proof.
  revert st. induction names as [|name names IH]; intros st; cbn; [lia|].
  unfold register_all in IH. rewrite IH. st_simpl. lia.
Qed.

Lemma register_all_trace i names st :
  st_trace (register_all i names st)
  = st_trace st
    ++ zip_with (λ h name, EvRegisterHook h i name)
         (seq (st_next_handle st) (length names)) names.
Proof.
  revert st. induction names as [|name names IH]; intros st; cbn.
  - by rewrite app_nil_r.
  - unfold register_all in IH. rewrite IH. st_simpl. by rewrite <- app_assoc.
Qed.

Lemma register_all_hooks i names st h :
  h < st_next_handle st ∨ st_next_handle st + length names ≤ h →
  st_hooks (register_all i names st) !! h = st_hooks st !! h.
Proof.
  revert st. induction names as [|name names IH]; intros st Hh; [done|].
  cbn. unfold register_all in IH. rewrite IH.
  - st_simpl. rewrite lookup_insert_ne; [done|]. cbn in Hh. lia.
  - st_simpl. cbn in Hh. lia.
Qed.

Lemma remove_all_next handles st :
  st_next_handle (remove_all handles st) = st_next_handle st.
Proof.
  revert st. induction handles as [|h hs IH]; intros st; [done|].
  cbn. unfold remove_all in IH. by rewrite IH.
Qed.

Lemma remove_all_trace handles st :
  st_trace (remove_all handles st) = st_trace st ++ (EvRemoveHook <$> handles).
Proof.
  revert st. induction handles as [|h hs IH]; intros st; cbn.
  - by rewrite app_nil_r.
  - unfold remove_all in IH. rewrite IH. st_simpl. by rewrite <- app_assoc.
Qed.

Lemma remove_all_hooks handles st h :
  st_hooks (remove_all handles st) !! h
  = if decide (h ∈ handles) then None else st_hooks st !! h.
Proof.
  revert st. induction handles as [|h' hs IH]; intros st; cbn.
  - by rewrite decide_False by apply not_elem_of_nil.
  - unfold remove_all in IH. rewrite IH. st_simpl.
    destruct (decide (h ∈ hs)) as [Hin|Hnin].
    + by rewrite decide_True by by right.
    + destruct (decide (h = h')) as [->|Hne].
      * rewrite decide_True by by left. apply lookup_delete_eq.
      * rewrite decide_False by (intros Hc; apply elem_of_cons in Hc; tauto).
        by apply lookup_delete_ne.
Qed.

(** Hooks put on and taken off again leave the table as it was. *)
Lemma hooks_restored i names f st :
  hooks_fresh st →
  st_hooks (remove_all (seq (st_next_handle st) (length names))
              (with_trace f (register_all i names st)))
  = st_hooks st.
Proof.
  intros Hfresh. apply map_eq. intros h. rewrite remove_all_hooks.
  case_decide as Hin.
  - symmetry. apply Hfresh. apply elem_of_seq in Hin. lia.
  - st_simpl. apply register_all_hooks. rewrite elem_of_seq in Hin. lia.
Qed.

Lemma hook_fails_real hooks i (calls : list (string * Tensor)) :
  Forall (λ call, real_tensor call.2) calls →
  existsb (hook_fails hooks i) calls = false.
Proof.
  induction 1 as [|c cs Hc _ IH]; [done|]. cbn.
  unfold hook_fails at 1. unfold real_tensor in Hc. by rewrite Hc, IH.
Qed.

(** What a capture on block [i] does when the model has a block [i], the
    input can be put on the device and no hook meets an input without
    data. *)
Lemma capture_inputs_spec `{Collaborators} i dev inps kw st layer :
  st_layers st !! i = Some layer →
  let names := (get_named_linears layer).*1 in
  let x := tensor_to dev inps in
  let fw := block_forward (blk_mods layer) x kw in
  let hooks := st_hooks (register_all i names st) in
  let feat := torch_cat <$> foldl (cache_input_hook hooks i) ∅ fw.2 in
  movable dev [t_device inps] = true →
  existsb (hook_fails hooks i) fw.2 = false →
  ∃ st',
    capture_inputs i dev inps kw st = (inr (fw.1, feat), st')
    ∧ st_layers st' = st_layers st
    ∧ st_quant_config st' = st_quant_config st
    ∧ st_trace st'
      = st_trace st ++ capture_events i names (st_next_handle st) x fw.1 feat
    ∧ st_next_handle st' = st_next_handle st + length names
    ∧ (hooks_fresh st → st_hooks st' = st_hooks st).
Proof.
  intros Hlayer names x fw hooks feat G1 G2.
  assert (Hlayer1 : st_layers (register_all i names st) !! i = Some layer).
  { by rewrite (register_all_keeps st_layers). }
  unfold capture_inputs, call_layer, tensor_move.
  rewrite (step_get_layer _ _ _ _ Hlayer).
  rewrite (bind_ok _ _ _ _ _ (register_loop i (get_named_linears layer) [] st)).
  fold names. rewrite bind_assoc.
  rewrite (bind_ok _ _ _ _ _ (move_guard_ok _ _ _ G1)). mstep.
  rewrite (step_get_layer _ _ _ _ Hlayer1). mstep.
  fold x. fold fw. fold hooks. rewrite G2. mstep.
  cbn [app fst snd].
  rewrite (bind_ok _ _ _ _ _ (remove_loop _ _)). mstep. fold feat.
  eexists. split; [reflexivity|].
  assert (Hlen : length (get_named_linears layer) = length names)
    by (subst names; by rewrite length_fmap).
  rewrite Hlen. st_simpl.
  repeat split.
  - rewrite (remove_all_keeps st_layers) by done. st_simpl.
    by rewrite (register_all_keeps st_layers).
  - rewrite (remove_all_keeps st_quant_config) by done. st_simpl.
    by rewrite (register_all_keeps st_quant_config).
  - rewrite remove_all_trace. st_simpl. rewrite register_all_trace.
    unfold capture_events. by rewrite <- !app_assoc.
  - rewrite remove_all_next. st_simpl. apply register_all_next.
  - intros Hfresh. by apply hooks_restored.
Qed.

(** A capture whose input cannot be put on the device, or in which a hook
    meets an input without data, raises with the hooks still in place and
    no forward pass recorded. *)
Lemma capture_inputs_blocked `{Collaborators} i dev inps kw st layer :
  st_layers st !! i = Some layer →
  let names := (get_named_linears layer).*1 in
  let x := tensor_to dev inps in
  let fw := block_forward (blk_mods layer) x kw in
  let hooks := st_hooks (register_all i names st) in
  movable dev [t_device inps] = false
  ∨ existsb (hook_fails hooks i) fw.2 = true →
  capture_inputs i dev inps kw st
  = (inl (NotImplementedError meta_copy_message), register_all i names st).
Proof.
  intros Hlayer names x fw hooks G.
  assert (Hlayer1 : st_layers (register_all i names st) !! i = Some layer).
  { by rewrite (register_all_keeps st_layers). }
  unfold capture_inputs, call_layer, tensor_move.
  rewrite (step_get_layer _ _ _ _ Hlayer).
  rewrite (bind_ok _ _ _ _ _ (register_loop i (get_named_linears layer) [] st)).
  fold names. rewrite bind_assoc.
  destruct (movable dev [t_device inps]) eqn:G1.
  - destruct G as [G|G2]; [done|].
    rewrite (bind_ok _ _ _ _ _ (move_guard_ok _ _ _ G1)). mstep.
    rewrite (step_get_layer _ _ _ _ Hlayer1). mstep.
    fold x. fold fw. fold hooks. rewrite G2. by mstep.
  - by rewrite (bind_raise _ _ _ _ _ (move_guard_blocked _ _ _ G1)).
Qed.

Lemma capture_inputs_inv `{Collaborators} i dev inps kw st cap st' :
  capture_inputs i dev inps kw st = (inr cap, st') →
  ∃ layer,
    st_layers st !! i = Some layer
    ∧ movable dev [t_device inps] = true
    ∧ existsb
        (hook_fails
           (st_hooks (register_all i (get_named_linears layer).*1 st)) i)
        (block_forward (blk_mods layer) (tensor_to dev inps) kw).2 = false.
Proof.
  intros E. destruct (st_layers st !! i) as [layer|] eqn:Hl.
  - exists layer. split; [done|].
    destruct (movable dev [t_device inps]) eqn:G1.
    + split; [done|].
      match goal with |- ?b = false => destruct b eqn:G2; [|done] end.
      rewrite (capture_inputs_blocked _ _ _ _ _ _ Hl (or_intror G2)) in E.
      done.
    + rewrite (capture_inputs_blocked _ _ _ _ _ _ Hl (or_introl G1)) in E.
      done.
  - unfold capture_inputs, bind, get_layer in E. by rewrite Hl in E.
Qed.

(** Scale search and the application of its result, on block [i]. *)
Lemma scale_step_spec `{Collaborators} i kw feat res st layer :
  st_layers st !! i = Some layer →
  let mods := blk_mods layer in
  let scales := auto_scale_block mods kw (st_quant_config st) feat in
  let applied := apply_scale mods scales feat in
  scale_step i kw feat res st
  = (inr (applied.2,
          {| sr_scale := sr_scale res
                         ++ (prefix_scale (blk_name layer +:+ ".") <$> scales);
             sr_clip := sr_clip res |}),
     with_trace (λ t, t ++ [EvApplyScale i scales])
       (with_layers
          (λ ls, <[i := {| blk_name := blk_name layer; blk_mods := applied.1 |}]> ls)
          (with_trace (λ t, t ++ [EvAutoScale i mods feat]) st))).
Proof.
  intros Hlayer mods scales applied.
  assert (Hi : i < length (st_layers st)) by by eapply lookup_lt_Some.
  unfold scale_step, update_mods.
  rewrite (step_get_layer _ _ _ _ Hlayer). mstep.
  rewrite (step_get_layer _ _ _ layer) by done. mstep.
  rewrite (step_get_layer _ _ _ layer) by done.
  rewrite step_set_layer by done. mstep.
  erewrite step_get_layer; cycle 1.
  { st_simpl. by apply list_lookup_insert_eq. }
  by mstep.
Qed.

(** Clip search and the application of its result, on block [i]. *)
Lemma clip_step_spec `{Collaborators} i feat res st layer :
  st_layers st !! i = Some layer →
  let mods := blk_mods layer in
  let clips := auto_clip_block mods (st_quant_config st) feat in
  clip_step i feat res st
  = (inr {| sr_scale := sr_scale res;
            sr_clip := sr_clip res
                       ++ (prefix_clip (blk_name layer +:+ ".") <$> clips) |},
     with_trace (λ t, t ++ [EvApplyClip i clips])
       (with_layers
          (λ ls, <[i := {| blk_name := blk_name layer;
                           blk_mods := apply_clip mods clips |}]> ls)
          (with_trace (λ t, t ++ [EvAutoClip i mods feat]) st))).
Proof.
  intros Hlayer mods clips.
  assert (Hi : i < length (st_layers st)) by by eapply lookup_lt_Some.
  unfold clip_step, update_mods.
  rewrite (step_get_layer _ _ _ _ Hlayer). mstep.
  rewrite (step_get_layer _ _ _ layer) by done.
  rewrite step_set_layer by done. mstep.
  erewrite step_get_layer; cycle 1.
  { st_simpl. by apply list_lookup_insert_eq. }
  by mstep.
Qed.

(** * One turn of the search loop *)

(** The turn of block [i] begins by clearing the other blocks and making
    block [i] resident. *)
Lemma search_block_inv `{Collaborators} auto_scale mse_range kw i loc st loc' st' :
  search_block auto_scale mse_range kw i loc st = (inr loc', st') →
  ∃ s1 s2 layer,
    clear_other_layer i st = (inr tt, s1)
    ∧ layer_to i (Cuda (i / 10)) s1 = (inr tt, s2)
    ∧ st_layers s2 !! i = Some layer
    ∧ Forall (λ d, d = Cuda (i / 10)) (block_devices layer).
Proof.
  intros E. unfold search_block in E.
  apply bind_inv in E as (u1 & s1 & E1 & E). destruct u1.
  apply bind_inv in E as (u2 & s2 & E2 & E). destruct u2.
  destruct (layer_to_inv _ _ _ _ _ E2) as (b & Hb & _ & Hs2).
  exists s1, s2, (block_to (Cuda (i / 10)) b). repeat split; [done..| |].
  - rewrite Hs2. st_simpl. apply list_lookup_insert_eq. by eapply lookup_lt_Some.
  - apply block_devices_to.
Qed.

(** Run [clip_step] at the head of the goal's computation, given how to
    read block [i] off the current state. *)
Ltac run_clip_step tac :=
  lazymatch goal with
  | |- context [bind (clip_step ?i ?f ?r) _ ?s] =>
      let Hl := fresh "Hl" in
      eassert (Hl : st_layers s !! i = Some _) by tac;
      rewrite (bind_ok _ _ _ _ _ (clip_step_spec i f r s _ Hl)); clear Hl
  end.

Lemma bind_layer_to_last {A} i d (a : A) st :
  bind (layer_to i d) (λ _, bind (emit EvEmptyCache) (λ _, ret a)) st
  = match layer_to i d st with
    | (inl e, s) => (inl e, s)
    | (inr _, s) => (inr a, with_trace (λ t, t ++ [EvEmptyCache]) s)
    end.
Proof. unfold bind. by destruct (layer_to i d st) as [[e|u] s]. Qed.

(** The turn of block [i], from the state [s2] in which the block has just
    been made resident, up to the move that puts it back on the host: the
    state [s5] that move starts from. *)
Lemma search_block_pre `{Collaborators} (auto_scale mse_range : bool) kw i
    loc st s1 s2 layer :
  clear_other_layer i st = (inr tt, s1) →
  layer_to i (Cuda (i / 10)) s1 = (inr tt, s2) →
  st_layers s2 !! i = Some layer →
  let names := (get_named_linears layer).*1 in
  let x := tensor_to (Cuda (i / 10)) loc.1 in
  let fw := block_forward (blk_mods layer) x kw in
  let hooks := st_hooks (register_all i names s2) in
  let feat := torch_cat <$> foldl (cache_input_hook hooks i) ∅ fw.2 in
  let cfg := st_quant_config s2 in
  let mods := blk_mods layer in
  let scales := auto_scale_block mods kw cfg feat in
  let scaled := if auto_scale then apply_scale mods scales feat else (mods, feat) in
  let clips := auto_clip_block scaled.1 cfg scaled.2 in
  let final := if mse_range then apply_clip scaled.1 clips else scaled.1 in
  movable (Cuda (i / 10)) [t_device loc.1] = true →
  existsb (hook_fails hooks i) fw.2 = false →
  ∃ s5,
    search_block auto_scale mse_range kw i loc st
    = match layer_to i Cpu s5 with
      | (inl e, s) => (inl e, s)
      | (inr _, s) =>
          (inr (fw.1,
                {| sr_scale :=
                     sr_scale loc.2
                     ++ (if auto_scale
                         then prefix_scale (blk_name layer +:+ ".") <$> scales
                         else []);
                   sr_clip :=
                     sr_clip loc.2
                     ++ (if mse_range
                         then prefix_clip (blk_name layer +:+ ".") <$> clips
                         else []) |}),
           with_trace (λ t, t ++ [EvEmptyCache]) s)
      end
    ∧ st_trace s5
      = st_trace s2
        ++ capture_events i names (st_next_handle s2) x fw.1 feat
        ++ (if auto_scale
            then [EvAutoScale i mods feat; EvApplyScale i scales] else [])
        ++ [EvEmptyCache]
        ++ (if mse_range
            then [EvAutoClip i scaled.1 scaled.2; EvApplyClip i clips] else [])
    ∧ st_layers s5
      = <[i := {| blk_name := blk_name layer; blk_mods := final |}]>
          (st_layers s2)
    ∧ st_quant_config s5 = st_quant_config s2
    ∧ st_next_handle s5 = st_next_handle s2 + length names
    ∧ (hooks_fresh s2 → st_hooks s5 = st_hooks s2).
Proof.
  intros E1 E2 Hlayer. cbv zeta. destruct loc as [inps [sc cl]].
  cbn [fst snd]. intros G1 G2.
  destruct (capture_inputs_spec i (Cuda (i / 10)) inps kw s2 layer Hlayer G1 G2)
    as (s3 & Ecap & Hl3 & Hc3 & Ht3 & Hn3 & Hh3).
  assert (Hi : i < length (st_layers s2)) by by eapply lookup_lt_Some.
  assert (Hlayer3 : st_layers s3 !! i = Some layer) by by rewrite Hl3.
  unfold search_block.
  rewrite (bind_ok _ _ _ _ _ E1), (bind_ok _ _ _ _ _ E2),
    (bind_ok _ _ _ _ _ Ecap).
  cbn [fst snd].
  destruct auto_scale, mse_range.
  - rewrite (bind_ok _ _ _ _ _ (scale_step_spec i kw _ _ s3 layer Hlayer3)).
    mstep. cbn [fst snd].
    run_clip_step ltac:(st_simpl; apply list_lookup_insert_eq; by rewrite Hl3).
    rewrite bind_layer_to_last.
    st_simpl. rewrite Hc3. cbn [blk_name blk_mods sr_scale sr_clip].
    eexists. split; [reflexivity|]. st_simpl.
    rewrite !list_insert_insert_eq, Hl3, Ht3, Hc3, Hn3.
    repeat split; try done. by rewrite <- !app_assoc.
  - rewrite (bind_ok _ _ _ _ _ (scale_step_spec i kw _ _ s3 layer Hlayer3)).
    mstep. cbn [fst snd].
    rewrite bind_layer_to_last.
    st_simpl. rewrite Hc3. rewrite ?app_nil_r.
    cbn [blk_name blk_mods sr_scale sr_clip].
    eexists. split; [reflexivity|]. st_simpl.
    rewrite Hl3, Ht3, Hn3.
    repeat split; try done. by rewrite <- !app_assoc.
  - mstep. cbn [fst snd].
    run_clip_step ltac:(st_simpl; exact Hlayer3).
    rewrite bind_layer_to_last.
    st_simpl. rewrite Hc3. rewrite ?app_nil_r.
    cbn [blk_name blk_mods sr_scale sr_clip].
    eexists. split; [reflexivity|]. st_simpl.
    rewrite Hl3, Ht3, Hn3.
    repeat split; try done. by rewrite <- !app_assoc.
  - mstep. cbn [fst snd].
    rewrite bind_layer_to_last.
    st_simpl. rewrite ?app_nil_r.
    eexists. split; [reflexivity|]. st_simpl.
    rewrite Hl3, Ht3, Hn3. destruct layer as [name mods].
    repeat split; try done.
    + by rewrite <- !app_assoc.
    + symmetry. by apply list_insert_id.
Qed.

(** The turn of block [i], from the state [s2] in which the block has just
    been made resident: what it returns, the events it adds, and the state
    it leaves, when nothing it has to move is on the meta device. *)
Lemma search_block_run `{Collaborators} (auto_scale mse_range : bool) kw i
    loc st s1 s2 layer :
  clear_other_layer i st = (inr tt, s1) →
  layer_to i (Cuda (i / 10)) s1 = (inr tt, s2) →
  st_layers s2 !! i = Some layer →
  let names := (get_named_linears layer).*1 in
  let x := tensor_to (Cuda (i / 10)) loc.1 in
  let fw := block_forward (blk_mods layer) x kw in
  let hooks := st_hooks (register_all i names s2) in
  let feat := torch_cat <$> foldl (cache_input_hook hooks i) ∅ fw.2 in
  let cfg := st_quant_config s2 in
  let mods := blk_mods layer in
  let scales := auto_scale_block mods kw cfg feat in
  let scaled := if auto_scale then apply_scale mods scales feat else (mods, feat) in
  let clips := auto_clip_block scaled.1 cfg scaled.2 in
  let final := if mse_range then apply_clip scaled.1 clips else scaled.1 in
  movable (Cuda (i / 10)) [t_device loc.1] = true →
  existsb (hook_fails hooks i) fw.2 = false →
  movable Cpu
    (block_devices {| blk_name := blk_name layer; blk_mods := final |}) = true →
  ∃ st',
    search_block auto_scale mse_range kw i loc st
    = (inr (fw.1,
            {| sr_scale :=
                 sr_scale loc.2
                 ++ (if auto_scale
                     then prefix_scale (blk_name layer +:+ ".") <$> scales
                     else []);
               sr_clip :=
                 sr_clip loc.2
                 ++ (if mse_range
                     then prefix_clip (blk_name layer +:+ ".") <$> clips
                     else []) |}),
       st')
    ∧ st_trace st'
      = st_trace s2
        ++ capture_events i names (st_next_handle s2) x fw.1 feat
        ++ (if auto_scale
            then [EvAutoScale i mods feat; EvApplyScale i scales] else [])
        ++ [EvEmptyCache]
        ++ (if mse_range
            then [EvAutoClip i scaled.1 scaled.2; EvApplyClip i clips] else [])
        ++ [EvTo i Cpu; EvEmptyCache]
    ∧ st_layers st'
      = <[i := block_to Cpu {| blk_name := blk_name layer; blk_mods := final |}]>
          (st_layers s2)
    ∧ st_quant_config st' = st_quant_config s2
    ∧ st_next_handle st' = st_next_handle s2 + length names
    ∧ (hooks_fresh s2 → st_hooks st' = st_hooks s2).
Proof.
  intros E1 E2 Hlayer. cbv zeta. intros G1 G2 G3.
  destruct (search_block_pre auto_scale mse_range kw i loc st s1 s2 layer
              E1 E2 Hlayer G1 G2) as (s5 & E & Ht & Hl & Hc & Hn & Hh).
  assert (Hi : i < length (st_layers s2)) by by eapply lookup_lt_Some.
  erewrite layer_to_run in E; [| |exact G3]; cycle 1.
  { rewrite Hl. by apply list_lookup_insert_eq. }
  eexists. split; [exact E|]. st_simpl.
  rewrite Hl, Ht, list_insert_insert_eq.
  repeat split; try done. by rewrite <- !app_assoc.
Qed.

(** The turn of block [i] when search has left a tensor of the block on
    the meta device: the move back to the host raises, after the forward
    pass of the block has been recorded. *)
Lemma search_block_blocked `{Collaborators} (auto_scale mse_range : bool) kw i
    loc st s1 s2 layer :
  clear_other_layer i st = (inr tt, s1) →
  layer_to i (Cuda (i / 10)) s1 = (inr tt, s2) →
  st_layers s2 !! i = Some layer →
  let names := (get_named_linears layer).*1 in
  let x := tensor_to (Cuda (i / 10)) loc.1 in
  let fw := block_forward (blk_mods layer) x kw in
  let hooks := st_hooks (register_all i names s2) in
  let feat := torch_cat <$> foldl (cache_input_hook hooks i) ∅ fw.2 in
  let cfg := st_quant_config s2 in
  let mods := blk_mods layer in
  let scales := auto_scale_block mods kw cfg feat in
  let scaled := if auto_scale then apply_scale mods scales feat else (mods, feat) in
  let clips := auto_clip_block scaled.1 cfg scaled.2 in
  let final := if mse_range then apply_clip scaled.1 clips else scaled.1 in
  movable (Cuda (i / 10)) [t_device loc.1] = true →
  existsb (hook_fails hooks i) fw.2 = false →
  movable Cpu
    (block_devices {| blk_name := blk_name layer; blk_mods := final |}) = false →
  ∃ st',
    search_block auto_scale mse_range kw i loc st
    = (inl (NotImplementedError meta_copy_message), st')
    ∧ st_trace st'
      = st_trace s2
        ++ capture_events i names (st_next_handle s2) x fw.1 feat
        ++ (if auto_scale
            then [EvAutoScale i mods feat; EvApplyScale i scales] else [])
        ++ [EvEmptyCache]
        ++ (if mse_range
            then [EvAutoClip i scaled.1 scaled.2; EvApplyClip i clips] else []).
Proof.
  intros E1 E2 Hlayer. cbv zeta. intros G1 G2 G3.
  destruct (search_block_pre auto_scale mse_range kw i loc st s1 s2 layer
              E1 E2 Hlayer G1 G2) as (s5 & E & Ht & Hl & Hc & Hn & Hh).
  assert (Hi : i < length (st_layers s2)) by by eapply lookup_lt_Some.
  erewrite layer_to_blocked in E; [| |exact G3]; cycle 1.
  { rewrite Hl. by apply list_lookup_insert_eq. }
  by exists s5.
Qed.

(** A turn that returns has met nothing on the meta device. *)
Lemma search_block_success `{Collaborators} (auto_scale mse_range : bool) kw i
    loc st loc' st' :
  search_block auto_scale mse_range kw i loc st = (inr loc', st') →
  ∃ s1 s2 layer,
    clear_other_layer i st = (inr tt, s1)
    ∧ layer_to i (Cuda (i / 10)) s1 = (inr tt, s2)
    ∧ st_layers s2 !! i = Some layer
    ∧ let names := (get_named_linears layer).*1 in
      let x := tensor_to (Cuda (i / 10)) loc.1 in
      let fw := block_forward (blk_mods layer) x kw in
      let hooks := st_hooks (register_all i names s2) in
      let feat := torch_cat <$> foldl (cache_input_hook hooks i) ∅ fw.2 in
      let cfg := st_quant_config s2 in
      let mods := blk_mods layer in
      let scales := auto_scale_block mods kw cfg feat in
      let scaled :=
        if auto_scale then apply_scale mods scales feat else (mods, feat) in
      let clips := auto_clip_block scaled.1 cfg scaled.2 in
      let final := if mse_range then apply_clip scaled.1 clips else scaled.1 in
      movable (Cuda (i / 10)) [t_device loc.1] = true
      ∧ existsb (hook_fails hooks i) fw.2 = false
      ∧ movable Cpu
          (block_devices {| blk_name := blk_name layer; blk_mods := final |})
        = true.
Proof.
  intros E.
  destruct (search_block_inv _ _ _ _ _ _ _ _ E)
    as (s1 & s2 & layer & E1 & E2 & Hl & _).
  exists s1, s2, layer. split; [done|]. split; [done|]. split; [done|].
  cbv zeta.
  assert (Hcap :
    movable (Cuda (i / 10)) [t_device loc.1] = true
    ∧ existsb
        (hook_fails
           (st_hooks (register_all i (get_named_linears layer).*1 s2)) i)
        (block_forward (blk_mods layer) (tensor_to (Cuda (i / 10)) loc.1) kw).2
      = false).
  { unfold search_block in E.
    rewrite (bind_ok _ _ _ _ _ E1), (bind_ok _ _ _ _ _ E2) in E.
    apply bind_inv in E as (cap & s3 & Ecap & _).
    apply capture_inputs_inv in Ecap as (layer' & Hl' & G1 & G2).
    rewrite Hl in Hl'. by inversion Hl'; subst layer'. }
  destruct Hcap as [G1 G2]. split; [done|]. split; [done|].
  match goal with |- ?b = true => destruct b eqn:G3; [done|] end.
  destruct (search_block_blocked auto_scale mse_range kw i loc st s1 s2 layer
              E1 E2 Hl G1 G2 G3) as (st'' & E' & _).
  by rewrite E in E'.
Qed.

(** * Frames of the search pass *)

#[local] Instance adds_preorder P : PreOrder (adds P).
Proof.
  split.
  - intros st. exists []. by rewrite app_nil_r.
  - intros a b c (t1 & Ht1 & Hp1) (t2 & Ht2 & Hp2). exists (t1 ++ t2).
    rewrite Ht2, Ht1, app_assoc. split; [done|]. by apply Forall_app.
Qed.

Lemma adds_new_events P st st' :
  adds P st st' → Forall P (new_events st st')
                  ∧ st_trace st' = st_trace st ++ new_events st st'.
Proof. intros (tr & Htr & Hp). by rewrite (new_events_app _ _ _ Htr). Qed.

(** An update that adds one event satisfying [P], or none. *)
Ltac adds_update :=
  st_simpl;
  first [ by (exists []; rewrite app_nil_r)
        | by (eexists [_]; split; [reflexivity|repeat constructor]) ].

Ltac keeps_update :=
  unfold keeps, hook_view, block_names, has_blocks; st_simpl;
  rewrite ?length_insert; try done.

Lemma layer_to_block_names i d : preserves (keeps block_names) (layer_to i d).
Proof.
  intros st. destruct (layer_to i d st) as [[e|u] st'] eqn:E.
  - by apply layer_to_raises_inv in E as ->.
  - apply layer_to_inv in E as (b & Hb & _ & ->). keeps_update.
    rewrite list_fmap_insert. by apply list_insert_id; rewrite list_lookup_fmap, Hb.
Qed.

Lemma clear_other_layer_block_names `{Collaborators} i :
  preserves (keeps block_names) (clear_other_layer i).
Proof.
  unfold clear_other_layer, for_range.
  repeat first [ frame_step | apply layer_to_block_names ].
  apply preserves_emit; [exact _|]. intros st. keeps_update.
Qed.

Lemma clear_other_layer_hooks `{Collaborators} i :
  preserves (keeps hook_view) (clear_other_layer i).
Proof. frame; keeps_update. Qed.

Lemma clear_other_layer_length `{Collaborators} i :
  preserves (keeps (λ st, length (st_layers st))) (clear_other_layer i).
Proof. frame; keeps_update. Qed.

Lemma clear_other_layer_adds `{Collaborators} i :
  preserves (adds (λ e, is_housekeeping e = true)) (clear_other_layer i).
Proof. frame; adds_update. Qed.

Lemma clear_other_layer_config `{Collaborators} i :
  preserves (keeps st_quant_config) (clear_other_layer i).
Proof. frame; keeps_update. Qed.

Lemma catch_first_inputs_block_names `{Collaborators} samples :
  preserves (keeps block_names) (catch_first_inputs samples).
Proof.
  unfold catch_first_inputs, move_embed, tensor_move, move_guard.
  repeat first [ frame_step | apply layer_to_block_names
               | apply preserves_emit; [exact _|intros ?]
               | apply preserves_modify; intros ? ];
    keeps_update.
Qed.

Lemma catch_first_inputs_hooks `{Collaborators} samples :
  preserves (keeps hook_view) (catch_first_inputs samples).
Proof. frame; keeps_update. Qed.

Lemma catch_first_inputs_adds `{Collaborators} samples :
  preserves (adds (λ e, is_housekeeping e = true)) (catch_first_inputs samples).
Proof. frame; adds_update. Qed.


(** The state in which a block is made resident differs from the state at
    the start of its turn by moves to the host only. *)
Lemma search_block_entry `{Collaborators} i st s1 s2 :
  clear_other_layer i st = (inr tt, s1) →
  layer_to i (Cuda (i / 10)) s1 = (inr tt, s2) →
  block_names s2 = block_names st
  ∧ hook_view s2 = hook_view st
  ∧ st_quant_config s2 = st_quant_config st
  ∧ length (st_layers s2) = length (st_layers st)
  ∧ ∃ pre, st_trace s2 = st_trace st ++ pre
           ∧ Forall (λ e, is_housekeeping e = true) pre.
Proof.
  intros E1 E2.
  pose proof (preserves_run _ _ _ _ _ (clear_other_layer_block_names i) E1) as Hn.
  pose proof (preserves_run _ _ _ _ _ (clear_other_layer_hooks i) E1) as Hh.
  pose proof (preserves_run _ _ _ _ _ (clear_other_layer_config i) E1) as Hc.
  pose proof (preserves_run _ _ _ _ _ (clear_other_layer_length i) E1) as Hl.
  pose proof (preserves_run _ _ _ _ _ (clear_other_layer_adds i) E1)
    as (pre & Hpre & Hhk).
  pose proof (preserves_run _ _ _ _ _ (layer_to_block_names i _) E2) as Hn2.
  apply layer_to_inv in E2 as (b & Hb & _ & ->).
  unfold keeps, hook_view in *. st_simpl. rewrite length_insert.
  split; [congruence|]. split; [done|]. split; [done|]. split; [done|].
  exists (pre ++ [EvTo i (Cuda (i / 10))]). rewrite Hpre, app_assoc.
  split; [done|]. apply Forall_app. by repeat constructor.
Qed.

(** * Eviction before the next block *)




(** * The chain of calibration inputs *)

Lemma forwards_app t1 t2 : forwards (t1 ++ t2) = forwards t1 ++ forwards t2.
Proof. apply omap_app. Qed.

Lemma forwards_housekeeping tr :
  Forall (λ e, is_housekeeping e = true) tr → forwards tr = [].
Proof.
  induction 1 as [|e tr He _ IH]; [done|].
  destruct e; try discriminate He; exact IH.
Qed.

Lemma forwards_register i names next :
  forwards (zip_with (λ h name, EvRegisterHook h i name)
              (seq next (length names)) names) = [].
Proof. revert next. induction names as [|n ns IH]; intros next; [done|]. apply IH. Qed.

Lemma forwards_remove hs : forwards (EvRemoveHook <$> hs) = [].
Proof. induction hs as [|h hs IH]; [done|]. apply IH. Qed.

Lemma forwards_capture_events i names next x out feat :
  forwards (capture_events i names next x out feat) = [(i, x, out)].
Proof.
  unfold capture_events.
  by rewrite !forwards_app, forwards_register, forwards_remove.
Qed.

(** One turn adds one forward pass, on its block and on the input handed
    over, and hands its output on; a turn that raises adds none, or the one
    of its block when it raises on the way back to the host. *)
Lemma search_block_forwards `{Collaborators} (auto_scale mse_range : bool) kw i
    loc st r st' :
  search_block auto_scale mse_range kw i loc st = (r, st') →
  ∃ tr, st_trace st' = st_trace st ++ tr
        ∧ match r with
          | inl _ =>
              forwards tr = []
              ∨ ∃ out,
                  forwards tr = [(i, tensor_to (Cuda (i / 10)) loc.1, out)]
          | inr loc' =>
              forwards tr = [(i, tensor_to (Cuda (i / 10)) loc.1, loc'.1)]
          end.
Proof.
  intros E. destruct r as [e|loc'].
  - destruct (clear_other_layer i st) as [[e1|[]] s1] eqn:E1.
    { unfold search_block in E. rewrite (bind_raise _ _ _ _ _ E1) in E.
      inversion E; subst.
      destruct (preserves_run _ _ _ _ _ (clear_other_layer_adds i) E1)
        as (tr & Htr & Hhk).
      exists tr. split; [done|]. left. by apply forwards_housekeeping. }
    destruct (preserves_run _ _ _ _ _ (clear_other_layer_adds i) E1)
      as (tr1 & Htr1 & Hhk1).
    destruct (layer_to i (Cuda (i / 10)) s1) as [[e2|[]] s2] eqn:E2.
    { unfold search_block in E.
      rewrite (bind_ok _ _ _ _ _ E1), (bind_raise _ _ _ _ _ E2) in E.
      inversion E; subst. apply layer_to_raises_inv in E2 as ->.
      exists tr1. split; [done|]. left. by apply forwards_housekeeping. }
    destruct (search_block_entry _ _ _ _ E1 E2)
      as (_ & _ & _ & _ & pre & Hpre & Hhk).
    destruct (layer_to_inv _ _ _ _ _ E2) as (b & Hb & _ & Hs2).
    assert (Hl : st_layers s2 !! i = Some (block_to (Cuda (i / 10)) b)).
    { rewrite Hs2. st_simpl. apply list_lookup_insert_eq.
      by eapply lookup_lt_Some. }
    set (layer := block_to (Cuda (i / 10)) b) in *.
    destruct (movable (Cuda (i / 10)) [t_device loc.1]) eqn:G1; cycle 1.
    { unfold search_block in E.
      rewrite (bind_ok _ _ _ _ _ E1), (bind_ok _ _ _ _ _ E2) in E.
      rewrite (bind_raise _ _ _ _ _
                 (capture_inputs_blocked _ _ _ _ _ _ Hl (or_introl G1))) in E.
      inversion E; subst st'. eexists. split.
      - rewrite register_all_trace, Hpre, <- app_assoc. reflexivity.
      - left. rewrite forwards_app, forwards_register.
        by rewrite (forwards_housekeeping pre). }
    destruct (existsb
                (hook_fails
                   (st_hooks (register_all i (get_named_linears layer).*1 s2)) i)
                (block_forward (blk_mods layer)
                   (tensor_to (Cuda (i / 10)) loc.1) kw).2) eqn:G2.
    { unfold search_block in E.
      rewrite (bind_ok _ _ _ _ _ E1), (bind_ok _ _ _ _ _ E2) in E.
      rewrite (bind_raise _ _ _ _ _
                 (capture_inputs_blocked _ _ _ _ _ _ Hl (or_intror G2))) in E.
      inversion E; subst st'. eexists. split.
      - rewrite register_all_trace, Hpre, <- app_assoc. reflexivity.
      - left. rewrite forwards_app, forwards_register.
        by rewrite (forwards_housekeeping pre). }
    pose proof (search_block_run auto_scale mse_range kw i loc st s1 s2 layer
                  E1 E2 Hl) as Hrun.
    pose proof (search_block_blocked auto_scale mse_range kw i loc st s1 s2
                  layer E1 E2 Hl) as Hblk.
    cbv zeta in Hrun, Hblk. specialize (Hrun G1 G2). specialize (Hblk G1 G2).
    match type of Hblk with
    | ?g = false → _ => destruct g eqn:G3
    end.
    { destruct (Hrun eq_refl) as (st'' & E' & _). by rewrite E in E'. }
    destruct (Hblk eq_refl) as (st'' & E' & Htr).
    rewrite E in E'. inversion E'; subst st''. eexists. split.
    + rewrite Htr, Hpre, <- app_assoc. reflexivity.
    + right. eexists.
      rewrite !forwards_app, forwards_capture_events,
        (forwards_housekeeping pre) by done.
      cbn [fst snd]. by destruct auto_scale, mse_range.
  - destruct (search_block_success _ _ _ _ _ _ _ _ E)
      as (s1 & s2 & layer & E1 & E2 & Hl & G1 & G2 & G3).
    destruct (search_block_entry _ _ _ _ E1 E2)
      as (_ & _ & _ & _ & pre & Hpre & Hhk).
    destruct (search_block_run auto_scale mse_range kw i loc st s1 s2 layer
                E1 E2 Hl G1 G2 G3) as (st'' & E' & Htr & _).
    rewrite E in E'. inversion E'; subst. eexists. split.
    + rewrite Htr, Hpre, <- app_assoc. reflexivity.
    + rewrite !forwards_app, forwards_capture_events,
        (forwards_housekeeping pre) by done.
      cbn [fst snd]. by destruct auto_scale, mse_range.
Qed.

Lemma search_loop_chain `{Collaborators} (auto_scale mse_range : bool) kw k a
    loc st r st' :
  for_each (seq a k) (search_block auto_scale mse_range kw) loc st = (r, st') →
  ∃ tr, st_trace st' = st_trace st ++ tr
        ∧ chained a loc.1 (forwards tr)
        ∧ (∀ loc', r = inr loc' → length (forwards tr) = k).
Proof.
  revert a loc st. induction k as [|k IH]; intros a loc st E.
  - inversion E; subst. exists []. rewrite app_nil_r. by repeat split.
  - cbn [seq for_each] in E.
    apply bind_inv_any in E as [(e & E & ->)|(loc1 & st1 & E1 & E)].
    + destruct (search_block_forwards _ _ _ _ _ _ _ _ E) as (tr & Htr & Hfw).
      exists tr. destruct Hfw as [->|[out ->]]; by repeat split.
    + destruct (search_block_forwards _ _ _ _ _ _ _ _ E1) as (tr1 & Htr1 & Hfw1).
      destruct (IH _ _ _ E) as (tr2 & Htr2 & Hch & Hlen).
      exists (tr1 ++ tr2). rewrite Htr2, Htr1, <- app_assoc.
      split; [done|]. rewrite forwards_app, Hfw1. cbn.
      split; [done|]. intros loc' ->. by rewrite (Hlen loc').
Qed.

Lemma chained_lookup start inp fw p i x y :
  chained start inp fw → fw !! p = Some (i, x, y) → i = start + p.
Proof.
  revert start inp p. induction fw as [|[[j u] v] fw IH]; intros start inp p; [done|].
  intros (-> & -> & Hch) Hp. destruct p as [|p]; cbn in Hp.
  - inversion Hp. lia.
  - rewrite (IH _ _ _ Hch Hp). lia.
Qed.

Lemma chained_succ start inp fw p i x y i' x' y' :
  chained start inp fw →
  fw !! p = Some (i, x, y) → fw !! S p = Some (i', x', y') →
  i' = S i ∧ x' = tensor_to (Cuda (i' / 10)) y.
Proof.
  revert start inp p. induction fw as [|[[j u] v] fw IH]; intros start inp p; [done|].
  intros (-> & -> & Hch) Hp Hp'. destruct p as [|p]; cbn in Hp, Hp'.
  - inversion Hp; subst. destruct fw as [|[[j' u'] v'] fw]; [done|].
    inversion Hp'; subst. destruct Hch as (-> & -> & _). done.
  - by apply (IH _ _ _ Hch Hp Hp').
Qed.

Lemma catch_first_inputs_inv `{Collaborators} samples st caught st0 :
  catch_first_inputs samples st = (inr caught, st0) →
  caught = run_prefix (tensor_to (Cuda 0) samples).
Proof.
  intros E. unfold catch_first_inputs, move_embed, tensor_move in E.
  apply bind_inv in E as (u1 & s1 & E1 & E).
  rewrite bind_assoc, step_modify, step_emit, step_gets in E. cbv beta zeta in E.
  cbn [st_embed with_trace with_embed] in E. rewrite bind_assoc in E.
  apply bind_inv in E as (u2 & s2 & E2 & E). rewrite step_ret in E.
  cbv beta zeta in E.
  apply bind_inv in E as (u3 & s3 & E3 & E).
  rewrite bind_assoc, step_modify, step_emit, step_emit, run_ret in E.
  by inversion E.
Qed.

Lemma awq_search_unfold `{Collaborators} samples auto_scale mse_range st caught
    st0 r st1 :
  catch_first_inputs samples st = (inr caught, st0) →
  for_each (seq 0 (length (st_layers st0)))
    (search_block auto_scale mse_range caught.2)
    (caught.1, {| sr_scale := []; sr_clip := [] |}) st0 = (r, st1) →
  _awq_search samples auto_scale mse_range st
  = (match r with inl e => inl e | inr loc => inr loc.2 end, st1).
Proof.
  intros E0 E1. unfold _awq_search. rewrite (bind_ok _ _ _ _ _ E0). mstep.
  unfold bind. rewrite E1. by destruct r.
Qed.

(** C4. The forward passes of a search run, in the order the trace has
    them: the pass at position [p] is on block [p]; the pass after the one
    on block [i] is on block [i+1], and its input is the output of block
    [i], element for element, put on the device of block [i+1]; the first
    input is what the model produced ahead of block 0.  A run that returns
    has made one pass per block.  This holds of every run, also of one
    that raises part of the way. *)
Theorem calibration_chain `{Collaborators}
    (samples : Tensor) (auto_scale mse_range : bool) (st : State) :
  let r := _awq_search samples auto_scale mse_range st in
  let fw := forwards (new_events st r.2) in
  chained 0 (run_prefix (tensor_to (Cuda 0) samples)).1 fw
  ∧ (∀ p i x y, fw !! p = Some (i, x, y) → i = p)
  ∧ (∀ p i x y i' x' y',
       fw !! p = Some (i, x, y) →
       fw !! S p = Some (i', x', y') →
       i' = S i ∧ x' = tensor_to (Cuda (i' / 10)) y ∧ t_data x' = t_data y)
  ∧ (∀ res, r.1 = inr res → length fw = length (st_layers st)).
Proof.
  cbv zeta.
  assert (Hmain :
    chained 0 (run_prefix (tensor_to (Cuda 0) samples)).1
      (forwards (new_events st (_awq_search samples auto_scale mse_range st).2))
    ∧ (∀ res, (_awq_search samples auto_scale mse_range st).1 = inr res →
         length (forwards
                   (new_events st
                      (_awq_search samples auto_scale mse_range st).2))
         = length (st_layers st))).
  { destruct (catch_first_inputs samples st) as [[e|caught] st0] eqn:E0.
    - unfold _awq_search. rewrite (bind_raise _ _ _ _ _ E0). cbn [fst snd].
      destruct (preserves_run _ _ _ _ _ (catch_first_inputs_adds samples) E0)
        as (tr & Htr & Hhk).
      rewrite (new_events_app _ _ _ Htr), (forwards_housekeeping _ Hhk).
      by split.
    - destruct (preserves_run _ _ _ _ _ (catch_first_inputs_adds samples) E0)
        as (tr0 & Htr0 & Hhk).
      assert (Hlen : length (st_layers st0) = length (st_layers st)).
      { assert (Hf : preserves (keeps (λ st, length (st_layers st)))
                       (catch_first_inputs samples))
          by (frame; keeps_update).
        apply (preserves_run _ _ _ _ _ Hf E0). }
      destruct (for_each (seq 0 (length (st_layers st0)))
                  (search_block auto_scale mse_range caught.2)
                  (caught.1, {| sr_scale := []; sr_clip := [] |}) st0)
        as [r st1] eqn:E1.
      rewrite (awq_search_unfold _ _ _ _ _ _ _ _ E0 E1). cbn [fst snd].
      destruct (search_loop_chain _ _ _ _ _ _ _ _ _ E1) as (tr & Htr & Hch & Hn).
      rewrite (new_events_app st st1 (tr0 ++ tr))
        by (by rewrite Htr, Htr0, app_assoc).
      rewrite forwards_app, (forwards_housekeeping _ Hhk). cbn [app].
      rewrite (catch_first_inputs_inv _ _ _ _ E0) in Hch. cbn [fst] in Hch.
      split; [done|]. intros res Hres. destruct r as [e|loc]; [done|].
      by rewrite (Hn loc eq_refl). }
  destruct Hmain as [Hch Hlen]. split; [done|]. split; [|split; [|done]].
  - intros p i x y Hp. by rewrite (chained_lookup _ _ _ _ _ _ _ Hch Hp).
  - intros p i x y i' x' y' Hp Hp'.
    destruct (chained_succ _ _ _ _ _ _ _ _ _ _ Hch Hp Hp') as [-> ->].
    by repeat split.
Qed.

(** On the small model of ten blocks, block 1 is fed the output of
    block 0. *)
Lemma calibration_chain_witness :
  let fw := forwards (new_events (tiny_model 10)
                        (_awq_search (tiny_tensor Cpu 7) true true
                           (tiny_model 10)).2) in
  let x := mkTensor [1] Float16 (Cuda 0) [inject_Z 7] in
  let y := mkTensor [1] Float16 (Cuda 0) [inject_Z 7; 1%Q] in
  let y' := mkTensor [1] Float16 (Cuda 0) [inject_Z 7; 1%Q; 1%Q] in
  fw !! 0 = Some (0, x, y) ∧ fw !! 1 = Some (1, y, y').
Proof.
  cbv zeta.
  assert (H0 : forwards (new_events (tiny_model 10)
                           (_awq_search (tiny_tensor Cpu 7) true true
                              (tiny_model 10)).2) !! 0
               = Some (0, mkTensor [1] Float16 (Cuda 0) [inject_Z 7],
                       mkTensor [1] Float16 (Cuda 0) [inject_Z 7; 1%Q]))
    by (vm_compute; reflexivity).
  assert (H1 : forwards (new_events (tiny_model 10)
                           (_awq_search (tiny_tensor Cpu 7) true true
                              (tiny_model 10)).2) !! 1
               = Some (1, mkTensor [1] Float16 (Cuda 0) [inject_Z 7; 1%Q],
                       mkTensor [1] Float16 (Cuda 0) [inject_Z 7; 1%Q; 1%Q]))
    by (vm_compute; reflexivity).
  destruct (calibration_chain (tiny_tensor Cpu 7) true true (tiny_model 10))
    as (_ & _ & Hsucc & _).
  destruct (Hsucc 0 _ _ _ _ _ _ H0 H1) as (_ & _ & _).
  exact (conj H0 H1).
Defined.
(** * A model whose size is no multiple of ten *)

Lemma tensor_to_real d t : is_meta d = false → real_tensor (tensor_to d t).
Proof. intros Hd. exact Hd. Qed.

(** A block whose decade lies within the model is searched to the end. *)
Lemma search_block_total `{LawfulCollaborators} n (auto_scale mse_range : bool)
    kw i loc st :
  10 ≤ n → i < n → i / 10 * 10 + 10 ≤ n →
  real_tensor loc.1 → real_model n st →
  ∃ loc' st',
    search_block auto_scale mse_range kw i loc st = (inr loc', st')
    ∧ real_tensor loc'.1 ∧ real_model n st'.
Proof.
  intros Hn Hi Hten Hx Hst.
  destruct (clear_other_layer_total n i Hn Hten st Hst) as ([] & s1 & E1 & Hs1).
  destruct (layer_to_total n i (Cuda (i / 10)) Hi eq_refl s1 Hs1)
    as ([] & s2 & E2 & Hs2).
  destruct (layer_to_inv _ _ _ _ _ E2) as (b & Hb & _ & Hs2eq).
  assert (Hl : st_layers s2 !! i = Some (block_to (Cuda (i / 10)) b)).
  { rewrite Hs2eq. st_simpl. apply list_lookup_insert_eq.
    by eapply lookup_lt_Some. }
  set (layer := block_to (Cuda (i / 10)) b) in *.
  assert (Hrl : real_sublayers (blk_mods layer))
    by apply (real_model_lookup _ _ _ _ Hs2 Hl).
  destruct (block_forward_real (blk_mods layer)
              (tensor_to (Cuda (i / 10)) loc.1) kw Hrl eq_refl)
    as [Hout Hcalls].
  destruct (search_block_run auto_scale mse_range kw i loc st s1 s2 layer
              E1 E2 Hl) as (st' & E & _ & Hlayers & _).
  - by apply movable_tensor.
  - by apply hook_fails_real.
  - apply movable_real. unfold block_devices. cbn [blk_mods].
    destruct auto_scale, mse_range; cbn [fst snd];
      repeat first [ apply apply_clip_real | apply apply_scale_real
                   | exact Hrl ].
  - eexists _, st'. split; [exact E|]. split; [exact Hout|].
    destruct Hs2 as [Hlen Hreal]. split.
    + unfold has_blocks in *. by rewrite Hlayers, length_insert.
    + rewrite Hlayers. apply Forall_insert; [done|]. by apply block_to_real.
Qed.

(** The turns of the blocks below the last partial decade all return. *)
Lemma search_loop_total `{LawfulCollaborators} n (auto_scale mse_range : bool)
    kw k start loc st :
  start + k ≤ n / 10 * 10 →
  real_tensor loc.1 → real_model n st →
  ∃ loc' st',
    for_each (seq start k) (search_block auto_scale mse_range kw) loc st
    = (inr loc', st')
    ∧ real_tensor loc'.1 ∧ real_model n st'.
Proof.
  revert start loc st. induction k as [|k IH]; intros start loc st Hk Hx Hst.
  - by exists loc, st.
  - pose proof (decade_le n). pose proof (decade_within start n ltac:(lia)).
    destruct (search_block_total n auto_scale mse_range kw start loc st)
      as (loc1 & st1 & E1 & Hx1 & Hst1); [lia..|done|done|].
    destruct (IH (S start) loc1 st1) as (loc' & st' & E & Hx' & Hst');
      [lia|done|done|].
    exists loc', st'. split; [|done]. cbn [seq for_each].
    by rewrite (bind_ok _ _ _ _ _ E1).
Qed.

(** C9. In a model that holds its weights and whose number of blocks is
    below ten or not a multiple of ten, the search pass on samples that
    hold data raises [IndexError] at the index just past the block list.
    When the model has a block at all, the blocks before the last partial
    decade are searched to the end, and the error is raised by
    [clear_other_layer] at the first block of that decade. *)
Theorem search_raises_index_error `{LawfulCollaborators}
    (samples : Tensor) (auto_scale mse_range : bool) (st : State) :
  let n := length (st_layers st) in
  real_model n st → real_tensor samples →
  n < 10 ∨ n mod 10 ≠ 0 →
  (_awq_search samples auto_scale mse_range st).1
  = inl (IndexError (Z.of_nat n))
  ∧ (0 < n →
     ∃ caught st0 loc st1,
       catch_first_inputs samples st = (inr caught, st0)
       ∧ for_each (seq 0 (n / 10 * 10))
           (search_block auto_scale mse_range caught.2)
           (caught.1, {| sr_scale := []; sr_clip := [] |}) st0
         = (inr loc, st1)
       ∧ clear_other_layer (n / 10 * 10) st1
         = (inl (IndexError (Z.of_nat n)),
            (_awq_search samples auto_scale mse_range st).2)).
Proof.
  intros n Hst Hs Hn. destruct (decide (n = 0)) as [Hz|Hpos].
  - split; [|lia]. rewrite Hz.
    unfold _awq_search, catch_first_inputs.
    rewrite bind_assoc. apply (f_equal fst (y := (_, st))).
    apply bind_raise, layer_to_absent, lookup_ge_None_2. fold n. lia.
  - assert (0 < n) as Hpos' by lia.
    destruct (catch_first_inputs_total n samples Hpos' Hs st Hst)
      as (caught & st0 & E0 & Hst0).
    destruct (decade_partial n Hn Hpos') as [Hlt Hgt].
    destruct (search_loop_total n auto_scale mse_range caught.2
                (n / 10 * 10) 0
                (caught.1, {| sr_scale := []; sr_clip := [] |}) st0)
      as (loc & st1 & E1 & _ & Hst1); [lia| |done|].
    { rewrite (catch_first_inputs_inv _ _ _ _ E0).
      by apply run_prefix_real, tensor_to_real. }
    destruct (clear_other_layer_raises n st1 Hst1 Hn Hpos') as (st' & E2 & _).
    assert (Hrun : _awq_search samples auto_scale mse_range st
                   = (inl (IndexError (Z.of_nat n)), st')).
    { unfold _awq_search. rewrite (bind_ok _ _ _ _ _ E0). mstep.
      destruct Hst0 as [Hlen0 _]. unfold has_blocks in Hlen0. rewrite Hlen0.
      replace (seq 0 n) with (seq 0 (n / 10 * 10)
                              ++ seq (n / 10 * 10) (n - n / 10 * 10)).
      2:{ rewrite <- seq_app. f_equal. lia. }
      apply bind_raise. rewrite for_each_app. rewrite (bind_ok _ _ _ _ _ E1).
      destruct (n - n / 10 * 10) as [|k] eqn:Hk; [lia|]. cbn [seq for_each].
      apply bind_raise. unfold search_block. by apply bind_raise. }
    rewrite Hrun. split; [done|]. intros _. by exists caught, st0, loc, st1.
Qed.

(** The routines of the small model return data when given data. *)
Lemma tiny_rewrite_devices x m :
  module_devices (tiny_rewrite x m) = module_devices m.
Proof. by destruct m as [[w b]| | | |g]. Qed.

Lemma tiny_sublayers_real (f : Module → Module) mods :
  (∀ m, module_devices (f m) = module_devices m) →
  real_sublayers mods → real_sublayers (prod_map id f <$> mods).
Proof.
  intros Hf. unfold real_sublayers.
  induction mods as [|[name m] mods IH]; [done|]. cbn.
  rewrite !Forall_app, Hf. intros [Hm Hrest]. split; [done|]. by apply IH.
Qed.

#[local] Instance tiny_lawful : LawfulCollaborators.
Proof.
  split.
  - intros x Hx. exact Hx.
  - intros mods x kw _ Hx. split; [exact Hx|].
    cbn. apply Forall_fmap, Forall_true. intros nl. exact Hx.
  - intros mods scales feat. cbn. apply tiny_sublayers_real.
    intros m. destruct m; try done; apply tiny_rewrite_devices.
  - intros mods clips. cbn. apply tiny_sublayers_real.
    intros m. destruct m; try done; apply tiny_rewrite_devices.
Qed.

Lemma tiny_model_real n : real_model n (tiny_model n).
Proof.
  split.
  - unfold has_blocks, tiny_model. cbn. by rewrite length_fmap, length_seq.
  - unfold tiny_model. cbn. apply Forall_fmap, Forall_true. intros k.
    by repeat constructor.
Qed.

Lemma search_raises_index_error_witness :
  (_awq_search (tiny_tensor Cpu 7) true true (tiny_model 13)).1
  = inl (IndexError 13).
Proof.
  apply (search_raises_index_error (tiny_tensor Cpu 7) true true (tiny_model 13)).
  - apply (tiny_model_real 13).
  - reflexivity.
  - right. vm_compute. discriminate.
Defined.

(** * Capture, then scale search, then clip search *)

Lemma precedes_split (P Q : Event → Prop) l1 l2 :
  Forall (λ e, ¬ Q e) l1 → Forall (λ e, ¬ P e) l2 → precedes P Q (l1 ++ l2).
Proof.
  intros H1 H2 p q e1 e2 Hp Hq HP HQ.
  destruct (decide (p < length l1)) as [Hlt|Hge].
  - destruct (decide (q < length l1)) as [Hq1|]; [|lia].
    rewrite lookup_app_l in Hq by done.
    rewrite Forall_forall in H1. exfalso.
    by apply (H1 e2); [eapply list_elem_of_lookup_2|].
  - rewrite lookup_app_r in Hp by lia.
    rewrite Forall_forall in H2. exfalso.
    by apply (H2 e1); [eapply list_elem_of_lookup_2|].
Qed.

Lemma phase_housekeeping tr n :
  Forall (λ e, is_housekeeping e = true) tr → Forall (λ e, ¬ in_phase n e) tr.
Proof.
  intros Hhk. eapply Forall_impl; [exact Hhk|].
  intros e He Hp. unfold in_phase in Hp. by destruct e.
Qed.

Lemma phase_capture_events i names next x out feat n :
  n ≠ 1 →
  Forall (λ e, ¬ in_phase n e) (capture_events i names next x out feat).
Proof.
  intros Hn. unfold capture_events. rewrite !Forall_app. repeat split.
  - revert next. induction names as [|nm names IH]; intros next; cbn; [constructor|].
    constructor; [|apply IH]. intros [= <-]. done.
  - repeat constructor. intros [= <-]. done.
  - apply Forall_fmap, Forall_true. intros h [= <-]. done.
  - repeat constructor; [intros [= <-]; done | intros [=]].
Qed.

(** The events of a turn that returns, from the start of the turn. *)
Lemma search_block_trace `{Collaborators} (auto_scale mse_range : bool) kw i
    loc st loc' st' :
  search_block auto_scale mse_range kw i loc st = (inr loc', st') →
  ∃ pre names feat mods,
    let x := tensor_to (Cuda (i / 10)) loc.1 in
    let scales := auto_scale_block mods kw (st_quant_config st) feat in
    let scaled :=
      if auto_scale then apply_scale mods scales feat else (mods, feat) in
    let clips := auto_clip_block scaled.1 (st_quant_config st) scaled.2 in
    let final := if mse_range then apply_clip scaled.1 clips else scaled.1 in
    new_events st st'
    = pre
      ++ capture_events i names (st_next_handle st) x loc'.1 feat
      ++ (if auto_scale
          then [EvAutoScale i mods feat; EvApplyScale i scales] else [])
      ++ [EvEmptyCache]
      ++ (if mse_range
          then [EvAutoClip i scaled.1 scaled.2; EvApplyClip i clips] else [])
      ++ [EvTo i Cpu; EvEmptyCache]
    ∧ Forall (λ e, is_housekeeping e = true) pre
    ∧ (∃ name, st_layers st' !! i
               = Some (block_to Cpu {| blk_name := name; blk_mods := final |})
               ∧ block_names st' = block_names st
               ∧ name ∈ block_names st
               ∧ sr_scale loc'.2
                 = sr_scale loc.2
                   ++ (if auto_scale
                       then prefix_scale (name +:+ ".") <$> scales else [])
               ∧ sr_clip loc'.2
                 = sr_clip loc.2
                   ++ (if mse_range
                       then prefix_clip (name +:+ ".") <$> clips else []))
    ∧ st_next_handle st' = st_next_handle st + length names
    ∧ (hooks_fresh st → st_hooks st' = st_hooks st).
Proof.
  intros E.
  destruct (search_block_success _ _ _ _ _ _ _ _ E)
    as (s1 & s2 & layer & E1 & E2 & Hl & G1 & G2 & G3).
  destruct (search_block_entry _ _ _ _ E1 E2)
    as (Hnames & Hhv & Hcfg & Hlen & pre & Hpre & Hhk).
  destruct (search_block_run auto_scale mse_range kw i loc st s1 s2 layer
              E1 E2 Hl G1 G2 G3) as (st'' & E' & Htr & Hlayers & _ & Hnext & Hh).
  rewrite E in E'. inversion E' as [[Hloc Hst]]. subst st''.
  assert (Hhooks : st_hooks s2 = st_hooks st) by (by inversion Hhv).
  assert (Hnx : st_next_handle s2 = st_next_handle st) by (by inversion Hhv).
  exists pre, (get_named_linears layer).*1.
  eexists _, (blk_mods layer). cbv zeta. rewrite <- Hcfg, <- Hnx.
  split; [|split; [done|split; [|split]]].
  - apply new_events_app. rewrite Htr, Hpre, <- !app_assoc. reflexivity.
  - exists (blk_name layer).
    assert (Hi : i < length (st_layers s2)) by by eapply lookup_lt_Some.
    assert (Hname : block_names s2 !! i = Some (blk_name layer)).
    { unfold block_names. by rewrite list_lookup_fmap, Hl. }
    split; [rewrite Hlayers; by apply list_lookup_insert_eq|].
    split; [|split; [|done]].
    + rewrite <- Hnames. unfold block_names. rewrite Hlayers.
      rewrite list_fmap_insert. apply list_insert_id. exact Hname.
    + rewrite <- Hnames. by eapply list_elem_of_lookup_2.
  - done.
  - intros Hfresh. rewrite <- Hhooks. apply Hh.
    intros h Hge. rewrite Hhooks. apply Hfresh. lia.
Qed.

(** C5. In the events of a block's turn that returns, the capture (hooks
    on, the forward pass, hooks off, concatenation) is followed by scale
    search on the concatenated inputs and the application of its scales,
    and that by clip search and the application of its result: every event
    of the capture comes before every event of scale search, and every
    event of scale search before every event of clip search.  Clip search
    is run on the sublayers and inputs that the application of the scales
    returned, and the block is left with the clipped sublayers. *)
Theorem capture_then_scale_then_clip `{Collaborators}
    (auto_scale mse_range : bool) (kw : Kwargs) (i : nat)
    (loc loc' : Tensor * SearchResult) (st st' : State) :
  search_block auto_scale mse_range kw i loc st = (inr loc', st') →
  let tr := new_events st st' in
  ∃ pre names feat mods,
    let x := tensor_to (Cuda (i / 10)) loc.1 in
    let scales := auto_scale_block mods kw (st_quant_config st) feat in
    let scaled :=
      if auto_scale then apply_scale mods scales feat else (mods, feat) in
    let clips := auto_clip_block scaled.1 (st_quant_config st) scaled.2 in
    let final := if mse_range then apply_clip scaled.1 clips else scaled.1 in
    tr = pre
         ++ capture_events i names (st_next_handle st) x loc'.1 feat
         ++ (if auto_scale
             then [EvAutoScale i mods feat; EvApplyScale i scales] else [])
         ++ [EvEmptyCache]
         ++ (if mse_range
             then [EvAutoClip i scaled.1 scaled.2; EvApplyClip i clips]
             else [])
         ++ [EvTo i Cpu; EvEmptyCache]
    ∧ Forall (λ e, is_housekeeping e = true) pre
    ∧ (∃ name, st_layers st' !! i
               = Some (block_to Cpu {| blk_name := name; blk_mods := final |}))
    ∧ precedes (in_phase 1) (in_phase 2) tr
    ∧ precedes (in_phase 2) (in_phase 3) tr
    ∧ precedes (in_phase 1) (in_phase 3) tr.
Proof.
  intros E. cbv zeta.
  destruct (search_block_trace _ _ _ _ _ _ _ _ E)
    as (pre & names & feat & mods & Htr & Hhk & (name & Hlast & _) & _).
  cbv zeta in Htr, Hlast.
  exists pre, names, feat, mods. split; [exact Htr|]. split; [exact Hhk|].
  split; [by exists name|].
  rewrite Htr. clear Htr Hlast E.
  set (cap := capture_events _ _ _ _ _ _).
  assert (Hcap : ∀ n, n ≠ 1 → Forall (λ e, ¬ in_phase n e) cap)
    by (intros n Hn; by apply phase_capture_events).
  assert (Hpre : ∀ n, Forall (λ e, ¬ in_phase n e) pre)
    by (intros n; by apply phase_housekeeping).
  split; [|split].
  - rewrite (app_assoc pre cap). apply precedes_split.
    + apply Forall_app. split; [apply Hpre | by apply Hcap].
    + destruct auto_scale, mse_range; by repeat constructor.
  - rewrite (app_assoc pre cap), app_assoc, (app_assoc _ [EvEmptyCache]).
    apply precedes_split.
    + rewrite !Forall_app. repeat split; [apply Hpre | by apply Hcap | |].
      * destruct auto_scale; by repeat constructor.
      * by repeat constructor.
    + destruct mse_range; by repeat constructor.
  - rewrite (app_assoc pre cap), app_assoc, (app_assoc _ [EvEmptyCache]).
    apply precedes_split.
    + rewrite !Forall_app. repeat split; [apply Hpre | by apply Hcap | |].
      * destruct auto_scale; by repeat constructor.
      * by repeat constructor.
    + destruct mse_range; by repeat constructor.
Qed.

(** On the small model of ten blocks, the turn of block 0 records the
    capture ahead of scale search. *)
Lemma capture_then_scale_then_clip_witness :
  precedes (in_phase 1) (in_phase 2)
    (new_events (tiny_model 10)
       (search_block true true [] 0 (tiny_tensor Cpu 7, mkResult [] [])
          (tiny_model 10)).2).
Proof.
  destruct (search_block true true [] 0 (tiny_tensor Cpu 7, mkResult [] [])
              (tiny_model 10)) as [[e|loc'] st'] eqn:E.
  - vm_compute in E. discriminate E.
  - destruct (capture_then_scale_then_clip true true [] 0 _ loc' _ st' E)
      as (pre & names & feat & mods & _ & _ & _ & H12 & _).
    exact H12.
Defined.

(** * No hook outlives the capture of its block *)

Lemma hooks_fresh_later st st' :
  hooks_fresh st → st_hooks st' = st_hooks st →
  st_next_handle st ≤ st_next_handle st' → hooks_fresh st'.
Proof. intros Hf Hh Hn h Hge. rewrite Hh. apply Hf. lia. Qed.

(** The turns of the loop hand the hook table on as they found it. *)
Lemma search_loop_hooks `{Collaborators} (auto_scale mse_range : bool) kw k a
    loc0 st0 loc st :
  hooks_fresh st0 →
  for_each (seq a k) (search_block auto_scale mse_range kw) loc0 st0
  = (inr loc, st) →
  st_hooks st = st_hooks st0 ∧ st_next_handle st0 ≤ st_next_handle st.
Proof.
  revert a loc0 st0. induction k as [|k IH]; intros a loc0 st0 Hfresh E.
  - by inversion E.
  - cbn [seq for_each] in E. apply bind_inv in E as (loc1 & st1 & E1 & E).
    destruct (search_block_trace _ _ _ _ _ _ _ _ E1)
      as (pre & names & feat & mods & _ & _ & _ & Hnext & Hhooks).
    specialize (Hhooks Hfresh).
    destruct (IH _ _ _ (hooks_fresh_later _ _ Hfresh Hhooks ltac:(lia)) E)
      as [Hh Hn].
    split; [congruence|lia].
Qed.

Lemma no_hook_event_housekeeping tr :
  Forall (λ e, is_housekeeping e = true) tr → existsb is_hook_event tr = false.
Proof.
  induction 1 as [|e tr He _ IH]; [done|]. cbn. rewrite IH.
  by destruct e.
Qed.

(** C6. At the start of the turn of any block [j] the hook table is the
    one the loop started with: no hook of an earlier block is in place.
    Within the turn, the hooks are put on the linear sublayers of block
    [j], the forward pass is made, and the same handles are removed, before
    anything else: no event of the turn ahead of the capture or after it
    touches a hook, every hook event comes before every event of scale
    search, and the turn hands on the table it found. *)
Theorem hooks_removed_after_capture `{Collaborators}
    (auto_scale mse_range : bool) (kw : Kwargs) (j : nat)
    (loc0 loc : Tensor * SearchResult) (st0 st : State) :
  hooks_fresh st0 →
  for_each (seq 0 j) (search_block auto_scale mse_range kw) loc0 st0
  = (inr loc, st) →
  st_hooks st = st_hooks st0
  ∧ ∀ loc' st',
      search_block auto_scale mse_range kw j loc st = (inr loc', st') →
      st_hooks st' = st_hooks st0
      ∧ ∃ pre names x feat post,
          new_events st st'
          = pre ++ capture_events j names (st_next_handle st) x loc'.1 feat
            ++ post
          ∧ existsb is_hook_event pre = false
          ∧ existsb is_hook_event post = false
          ∧ precedes (λ e, is_hook_event e = true) (in_phase 2)
              (new_events st st').
Proof.
  intros Hfresh E.
  destruct (search_loop_hooks _ _ _ _ _ _ _ _ _ Hfresh E) as [Hh Hn].
  split; [done|]. intros loc' st' E'.
  pose proof (hooks_fresh_later _ _ Hfresh Hh Hn) as Hfresh'.
  destruct (search_block_trace _ _ _ _ _ _ _ _ E')
    as (pre & names & feat & mods & Htr & Hhk & _ & _ & Hhooks).
  cbv zeta in Htr. split; [rewrite <- Hh; by apply Hhooks|].
  exists pre, names. eexists _, feat, _. split; [exact Htr|].
  split; [by apply no_hook_event_housekeeping|].
  split; [by destruct auto_scale, mse_range|].
  rewrite Htr, app_assoc. apply precedes_split.
  - apply Forall_app. split.
    + by apply phase_housekeeping.
    + by apply phase_capture_events.
  - destruct auto_scale, mse_range; by repeat constructor.
Qed.

(** On the small model of twenty blocks, the table is empty again after
    the turn of block 0. *)
Lemma hooks_removed_after_capture_witness :
  st_hooks (for_each (seq 0 1) (search_block true true [])
              (tiny_tensor Cpu 7, mkResult [] []) (tiny_model 20)).2 = ∅.
Proof.
  destruct (for_each (seq 0 1) (search_block true true [])
              (tiny_tensor Cpu 7, mkResult [] []) (tiny_model 20))
    as [[e|loc1] st1] eqn:E.
  - vm_compute in E. discriminate E.
  - assert (Hfresh : hooks_fresh (tiny_model 20))
      by (intros h _; apply lookup_empty).
    destruct (hooks_removed_after_capture true true [] 1
                (tiny_tensor Cpu 7, mkResult [] []) loc1 (tiny_model 20) st1
                Hfresh E) as [Hh _].
    exact Hh.
Defined.

(** * What [save_quantized] persists *)

(** The records a search pass returns carry the names of the model's
    blocks. *)
Lemma search_loop_named `{Collaborators} (auto_scale mse_range : bool) kw k a
    loc0 st0 loc st names :
  for_each (seq a k) (search_block auto_scale mse_range kw) loc0 st0
  = (inr loc, st) →
  block_names st0 = names →
  globally_named names loc0.2 →
  globally_named names loc.2.
Proof.
  revert a loc0 st0. induction k as [|k IH]; intros a loc0 st0 E Hnames Hg.
  - by inversion E; subst.
  - cbn [seq for_each] in E. apply bind_inv in E as (loc1 & st1 & E1 & E).
    destruct (search_block_trace _ _ _ _ _ _ _ _ E1)
      as (pre & ns & feat & mods & _ & _
          & (name & _ & Hbn & Hin & Hsc & Hcl) & _).
    cbv zeta in Hsc, Hcl.
    apply (IH _ _ _ E); [congruence|].
    destruct Hg as [Hgs Hgc]. rewrite Hnames in Hin. split.
    + rewrite Hsc. apply Forall_app. split; [done|].
      destruct auto_scale; [|constructor].
      apply Forall_fmap, Forall_true. intros raw. by exists name, raw.
    + rewrite Hcl. apply Forall_app. split; [done|].
      destruct mse_range; [|constructor].
      apply Forall_fmap, Forall_true. intros raw. by exists name, raw.
Qed.

Lemma awq_search_named `{Collaborators} samples auto_scale mse_range st res st' :
  _awq_search samples auto_scale mse_range st = (inr res, st') →
  globally_named (block_names st) res.
Proof.
  intros E. unfold _awq_search in E.
  apply bind_inv in E as (caught & st0 & E0 & E).
  rewrite step_gets in E. apply bind_inv in E as (loc & st1 & E1 & E).
  inversion E; subst.
  apply (search_loop_named _ _ _ _ _ _ _ _ _ _ E1).
  - apply (preserves_run _ _ _ _ _ (catch_first_inputs_block_names samples) E0).
  - by split.
Qed.

Lemma awq_quant_search_result `{Collaborators} :
  preserves (keeps st_search_result) _awq_quant.
Proof. frame; keeps_update. Qed.

(** A [quantize] run with [run_search] that returns leaves a search result
    whose records carry the names of the model's blocks. *)
Lemma quantize_search_result `{Collaborators} cfg samples auto_scale mse_range
    run_quant st0 st :
  quantize cfg samples auto_scale mse_range true run_quant st0 = (inr tt, st) →
  ∃ res, st_search_result st = Some res
         ∧ globally_named (block_names st0) res.
Proof.
  rewrite quantize_unfold. unfold searched.
  destruct (_awq_search samples auto_scale mse_range (config_installed cfg st0))
    as [[e|res] st1] eqn:E1; [done|].
  apply awq_search_named in E1. intros E. exists res. split; [|done].
  destruct run_quant.
  - apply bind_inv in E as ([] & st2 & E2 & E).
    pose proof (preserves_run _ _ _ _ _ awq_quant_search_result E2) as Hk.
    unfold keeps in Hk. cbn in Hk. inversion E; subst. st_simpl. done.
  - by inversion E; subst.
Qed.

Lemma writes_weights_model_files dir :
  existsb writes_weights (model_file_events dir) = false.
Proof. done. Qed.

(** C8. [save_quantized] on a directory name that is not empty returns,
    and what it writes is: the model's own files; then the search result,
    in a file of its own and with no weight file, exactly when the model
    has a search result and is not quantized, and otherwise the shards of
    the weights under a cap that is "10GB" unless the caller gives one,
    with the shard index when [shard_checkpoint] returns one; then the
    quant config, in [quant_config.json] of the directory.  A search result
    that a [quantize] run has stored has every scale and clip record named
    with a block of the model in front. *)
Theorem save_quantized_persists `{Collaborators} (st : State)
    (save_dir : string) (safetensors : option bool)
    (shard_size : option string) :
  save_dir ≠ "" →
  let dir := target_dir save_dir in
  let r := save_quantized save_dir safetensors shard_size st in
  let tr := new_events st r.2 in
  r.1 = inr tt
  ∧ tr = model_file_events dir
         ++ match standalone_result st with
            | Some res =>
                [EvWrite (dir +:+ "/awq_model_search_result.pt")
                   (FSearchResult res)]
            | None =>
                weight_events dir (default false safetensors)
                  (default "10GB" shard_size) (st_layers st)
            end
         ++ [EvWrite (dir +:+ "/quant_config.json")
               (FQuantConfig (st_quant_config st))]
  ∧ (existsb writes_search_result tr = true
     ↔ (∃ res, st_search_result st = Some res) ∧ st_is_quantized st = false)
  ∧ (existsb writes_search_result tr = true → existsb writes_weights tr = false)
  ∧ st_fs r.2 !! (dir +:+ "/quant_config.json")
    = Some (FQuantConfig (st_quant_config st))
  ∧ (∀ res, st_search_result st = Some res → st_is_quantized st = false →
        st_fs r.2 !! (dir +:+ "/awq_model_search_result.pt")
        = Some (FSearchResult res))
  ∧ (∀ cfg samples auto_scale mse_range run_quant st0,
        quantize cfg samples auto_scale mse_range true run_quant st0
        = (inr tt, st) →
        ∃ res, st_search_result st = Some res
               ∧ globally_named (block_names st0) res).
Proof.
  intros Hne. cbv zeta.
  destruct (save_quantized_spec st save_dir safetensors shard_size Hne)
    as (Hok & Htr & Hcfg & Hres).
  cbv zeta in Hok, Htr, Hcfg, Hres.
  split; [done|]. split; [done|].
  assert (Hiff : existsb writes_search_result
                   (new_events st
                      (save_quantized save_dir safetensors shard_size st).2)
                 = true
                 ↔ ∃ res, standalone_result st = Some res).
  { rewrite Htr, !existsb_app. cbn.
    destruct (standalone_result st) as [res|].
    - cbn. split; [by eexists|done].
    - rewrite existsb_weight_events. cbn. split; [done|by intros [res ?]]. }
  split; [|split; [|split; [done|split]]].
  - rewrite Hiff. unfold standalone_result.
    destruct (st_search_result st) as [res|];
      [destruct (st_is_quantized st)|].
    + split; [by intros [? ?]|by intros [_ ?]].
    + split; [by intros _; split; [eexists|]|by intros _; eexists].
    + split; [by intros [? ?]|by intros [[? ?] _]].
  - intros Hw. apply Hiff in Hw as [res Hres']. rewrite Htr, Hres'.
    by rewrite !existsb_app, writes_weights_model_files.
  - intros res Hs Hq. apply Hres. unfold standalone_result. by rewrite Hs, Hq.
  - intros cfg samples auto_scale mse_range run_quant st0.
    apply quantize_search_result.
Qed.

(** The small model of ten blocks, searched and not quantized, saved to
    ["out/"]: the search result goes to a file. *)
Lemma save_quantized_persists_witness :
  let st := (quantize (tiny_config true) (tiny_tensor Cpu 7) true true true
               false (tiny_model 10)).2 in
  existsb writes_search_result
    (new_events st (save_quantized "out/" None None st).2) = true.
Proof.
  cbv zeta.
  destruct (save_quantized_persists
              (quantize (tiny_config true) (tiny_tensor Cpu 7) true true true
                 false (tiny_model 10)).2
              "out/" None None ltac:(discriminate))
    as (_ & _ & Hiff & _).
  apply Hiff. split; [eexists|]; vm_compute; reflexivity.
Defined.

